(** * Users page: query cache, optimistic status mutation, URL synchronisation
      and cell rendering

    Shallow embedding of
      - src/hooks/useUsers.ts                 (module [UseUsers])
      - src/pages/UsersPage/UsersPage.tsx     (module [UsersPage])
      - src/hooks/useLocalStorage (same file) (module [UseLocalStorage])
      - src/components/tables/DynamicGrid.tsx (module [DynamicGrid])
      - src/components/tables/UserActions.tsx (module [UserActions])

    The hooks receive values typed [any]; they are modelled on a small
    universe of JavaScript values (module [Js]) in which property reads,
    optional chaining, object spread and [Array.prototype.map] behave as in
    the language, including the [TypeError]s they raise.  The TanStack Query
    client the hooks drive is modelled in module [QueryClient]. *)

From Stdlib Require Import ZArith Ascii String List Lia.
From stdpp Require Import base decidable option list strings gmap pretty.

Local Open Scope Z_scope.

(* ===================================================================== *)
(** * JavaScript values *)
(* ===================================================================== *)

Module Js.

(** Numbers: the doubles the sources compute with, which are [NaN], the
    two infinities and integers; an integer is a double when [roundDouble]
    leaves it as it is.  Fractions and the sign of zero are outside the
    model: no operation of the sources yields a fraction from these.

    Strings are the UTF-8 bytes of the text. *)
Inductive number := NaN | Int (z : Z) | Infinity (negative : bool).

#[warnings="-register-all"]
Inductive JsValue :=
| JUndefined
| JNull
| JBool (b : bool)
| JNum (n : number)
| JStr (s : string)
| JArr (elems : list JsValue)
| JObj (props : list (string * JsValue)).

(** Abrupt completion of an expression. *)
Inductive JsError := TypeError | SyntaxError | SecurityError.

Inductive Completion (A : Type) :=
| Normal (a : A)
| Throw (e : JsError).
Arguments Normal {A} a.
Arguments Throw {A} e.

#[global] Instance Completion_ret : MRet Completion := fun A a => Normal a.
#[global] Instance Completion_bind : MBind Completion := fun A B f m =>
  match m with
  | Normal a => f a
  | Throw e => Throw e
  end.

#[global] Instance number_eq_dec : EqDecision number.
Proof. solve_decision. Defined.
#[global] Instance JsError_eq_dec : EqDecision JsError.
Proof. solve_decision. Defined.

(** [ToBoolean]: the falsy values are undefined, null, false, 0, NaN and
    the empty string. *)
Definition truthy (v : JsValue) : bool :=
  match v with
  | JUndefined | JNull => false
  | JBool b => b
  | JNum NaN => false
  | JNum (Int z) => negb (z =? 0)
  | JNum (Infinity _) => true
  | JStr s => negb (bool_decide (s = ""))
  | JArr _ | JObj _ => true
  end.

Definition nullish (v : JsValue) : bool :=
  match v with
  | JUndefined | JNull => true
  | _ => false
  end.

(** First binding of [k] in a property list. *)
Fixpoint lookupProp (k : string) (props : list (string * JsValue)) : option JsValue :=
  match props with
  | [] => None
  | (k', v) :: rest => if bool_decide (k' = k) then Some v else lookupProp k rest
  end.

(** [v.k] for an identifier [k] that is not a method name: a [TypeError] on
    undefined and null, the own property of an object, [length] of an array
    or a string, and undefined everywhere else. *)
Definition getProp (v : JsValue) (k : string) : Completion JsValue :=
  match v with
  | JUndefined | JNull => Throw TypeError
  | JObj props => Normal (default JUndefined (lookupProp k props))
  | JArr elems =>
      Normal (if bool_decide (k = "length")
              then JNum (Int (Z.of_nat (length elems))) else JUndefined)
  | JStr s =>
      Normal (if bool_decide (k = "length")
              then JNum (Int (Z.of_nat (String.length s))) else JUndefined)
  | JBool _ | JNum _ => Normal JUndefined
  end.

(** [v?.k]: undefined when [v] is nullish, [v.k] otherwise; never throws. *)
Definition optGet (v : JsValue) (k : string) : JsValue :=
  match getProp v k with
  | Normal x => x
  | Throw _ => JUndefined
  end.

(** [k: v] in an object literal after a spread: an existing property keeps
    its position and takes the new value, a new one goes last. *)
Fixpoint setProp (k : string) (v : JsValue) (props : list (string * JsValue))
  : list (string * JsValue) :=
  match props with
  | [] => [(k, v)]
  | (k', v') :: rest =>
      if bool_decide (k' = k) then (k, v) :: rest else (k', v') :: setProp k v rest
  end.

Definition chars (s : string) : list JsValue :=
  (fun c => JStr (String c EmptyString)) <$> list_ascii_of_string s.

(** [{...v}]: the own enumerable properties copied by a spread. *)
Definition ownProps (v : JsValue) : list (string * JsValue) :=
  match v with
  | JObj props => props
  | JArr elems => imap (fun i x => (pretty i, x)) elems
  | JStr s => imap (fun i x => (pretty i, x)) (chars s)
  | _ => []
  end.

(** [v.map(f)]: only arrays carry [map]; on every other value the call is a
    [TypeError] (no property on undefined/null, not a function elsewhere).
    The callback runs on the elements from left to right. *)
Definition arrayMap {B : Type} (f : JsValue -> Completion B) (v : JsValue)
  : Completion (list B) :=
  match v with
  | JArr elems => mapM f elems
  | _ => Throw TypeError
  end.

(** [v === s] for a string [s]. *)
Definition strictEqStr (v : JsValue) (s : string) : bool :=
  match v with
  | JStr s' => bool_decide (s' = s)
  | _ => false
  end.

(** [v === 0]. *)
Definition strictEqZero (v : JsValue) : bool :=
  match v with
  | JNum (Int 0) => true
  | _ => false
  end.

(** ** Numbers and their text *)

(** The double nearest to the integer [z], ties going to the even
    mantissa; an infinity from 2^1024 - 2^970 on. *)
Definition roundDouble (z : Z) : number :=
  let a := Z.abs z in
  if a <? 2 ^ 53 then Int z
  else
    let e := Z.log2 a - 52 in
    let q := a / 2 ^ e in
    let r := a mod 2 ^ e in
    let half := 2 ^ (e - 1) in
    let q' := if (half <? r) || ((r =? half) && Z.odd q) then q + 1 else q in
    let m := q' * 2 ^ e in
    if 2 ^ 1024 <=? m then Infinity (z <? 0) else Int (Z.sgn z * m).

(** The integers from -2^53 to 2^53: every one of them is a double, and
    beyond them some integers are not. *)
Definition safe (z : Z) : Prop := Z.abs z <= 2 ^ 53.

(** [NaN] and the integers up to 2^53. *)
Definition safeNumber (n : number) : Prop :=
  match n with
  | NaN => True
  | Int z => safe z
  | Infinity _ => False
  end.

Definition numAdd (a b : number) : number :=
  match a, b with
  | Int x, Int y => roundDouble (x + y)
  | Infinity s, Int _ | Int _, Infinity s => Infinity s
  | Infinity s, Infinity s' => if Bool.eqb s s' then Infinity s else NaN
  | _, _ => NaN
  end.

Definition numSub (a b : number) : number :=
  match a, b with
  | Int x, Int y => roundDouble (x - y)
  | Infinity s, Int _ => Infinity s
  | Int _, Infinity s => Infinity (negb s)
  | Infinity s, Infinity s' => if Bool.eqb s s' then NaN else Infinity s
  | _, _ => NaN
  end.

Definition zeros (n : Z) : string := Z.iter n (String "0") "".

Definition digitCount (x : Z) : Z := Z.of_nat (String.length (pretty x)).

(** The decimal [s] of [k] digits for which [s * 10^(n-k)] is read as the
    double [x], the one nearest to [x] when there are two. *)
Definition shortestWith (x n k : Z) : option Z :=
  if n <? k then None
  else
    let p := 10 ^ (n - k) in
    let ok s :=
      (10 ^ (k - 1) <=? s) && (s <? 10 ^ k)
      && bool_decide (roundDouble (s * p) = Int x) in
    let lo := x / p in
    let hi := lo + 1 in
    match ok lo, ok hi with
    | true, true =>
        Some (if x - lo * p <? hi * p - x then lo
              else if hi * p - x <? x - lo * p then hi
              else if Z.even lo then lo else hi)
    | true, false => Some lo
    | false, true => Some hi
    | false, false => None
    end.

(** The fewest digits that denote the double [x], with the position [n]
    of the decimal point: the [k], [s] and [n] of [Number::toString]. *)
Fixpoint shortest (x : Z) (fuel : nat) (k : Z) : option (Z * Z) :=
  match fuel with
  | O => None
  | S fuel' =>
      let d := digitCount x in
      match shortestWith x d k, shortestWith x (d + 1) k with
      | Some s, None => Some (s, d)
      | None, Some s => Some (s, d + 1)
      | Some s, Some s' =>
          Some (if Z.abs (s * 10 ^ (d - k) - x) <=? Z.abs (s' * 10 ^ (d + 1 - k) - x)
                then (s, d) else (s', d + 1))
      | None, None => shortest x fuel' (k + 1)
      end
  end.

(** The text of a positive integer double from 2^53 on: its shortest
    digits padded with zeros up to 21 digits, exponent notation beyond. *)
Definition largeToString (x : Z) : string :=
  match shortest x 17 1 with
  | Some (s, n) =>
      if n <=? 21 then pretty s +:+ zeros (n - digitCount s)
      else
        match pretty s with
        | String c EmptyString => String c ("e+" +:+ pretty (n - 1))
        | String c rest => String c ("." +:+ rest +:+ "e+" +:+ pretty (n - 1))
        | EmptyString => pretty x
        end
  | None => pretty x
  end.

(** [Number.prototype.toString()]. *)
Definition numToString (n : number) : string :=
  match n with
  | NaN => "NaN"
  | Infinity negative => if negative then "-Infinity" else "Infinity"
  | Int z =>
      if Z.abs z <? 2 ^ 53 then pretty z
      else (if z <? 0 then "-" else "") +:+ largeToString (Z.abs z)
  end.

(** The one-byte white space [parseInt] skips. *)
Definition isWhiteSpace (c : ascii) : bool :=
  match c with
  | "009" | "010" | "011" | "012" | "013" | " " => true
  | _ => false
  end%char.

(** The text after one white space or line terminator, if it starts with
    one: the one-byte ones, U+00A0, U+1680, U+2000 to U+200A, U+2028,
    U+2029, U+202F, U+205F, U+3000 and U+FEFF. *)
Definition dropWhiteSpace (s : string) : option string :=
  match s with
  | String c s1 =>
      let b := N_of_ascii c in
      if isWhiteSpace c then Some s1
      else if (b <? 128)%N then None
      else
        match s1 with
        | String d s2 =>
            let d := N_of_ascii d in
            if ((b =? 194) && (d =? 160))%N then Some s2
            else
              match s2 with
              | String f s3 =>
                  let f := N_of_ascii f in
                  if ((b =? 225) && (d =? 154) && (f =? 128))%N
                     || ((b =? 226) && (d =? 128)
                         && (((128 <=? f) && (f <=? 138)) || (f =? 168)
                             || (f =? 169) || (f =? 175)))%N
                     || ((b =? 226) && (d =? 129) && (f =? 159))%N
                     || ((b =? 227) && (d =? 128) && (f =? 128))%N
                     || ((b =? 239) && (d =? 187) && (f =? 191))%N
                  then Some s3 else None
              | EmptyString => None
              end
        | EmptyString => None
        end
  | EmptyString => None
  end.

Fixpoint skipWhiteSpaceWithin (fuel : nat) (s : string) : string :=
  match fuel with
  | O => s
  | S fuel' =>
      match dropWhiteSpace s with
      | Some rest => skipWhiteSpaceWithin fuel' rest
      | None => s
      end
  end.

Definition skipWhiteSpace (s : string) : string :=
  skipWhiteSpaceWithin (String.length s) s.

(** The value of a character as a digit in [radix], if it is one. *)
Definition digitValue (radix : N) (c : ascii) : option N :=
  let n := N_of_ascii c in
  let d :=
    if (48 <=? n)%N && (n <=? 57)%N then Some (n - 48)%N
    else if (97 <=? n)%N && (n <=? 122)%N then Some (n - 87)%N
    else if (65 <=? n)%N && (n <=? 90)%N then Some (n - 55)%N
    else None in
  match d with
  | Some d => if (d <? radix)%N then Some d else None
  | None => None
  end.

(** The longest prefix of digits, read from the left; [None] when there is
    no digit at all. *)
Fixpoint readDigits (radix : N) (acc : option N) (s : string) : option N :=
  match s with
  | EmptyString => acc
  | String c s' =>
      match digitValue radix c with
      | Some d => readDigits radix (Some (default 0 acc * radix + d)%N) s'
      | None => acc
      end
  end.

(** [parseInt(s)] without a radix: leading white space, a sign, a [0x]
    prefix for base 16, then the digits; anything after them is ignored,
    and the integer read is rounded to a double. *)
Definition parseInt (s : string) : number :=
  let s := skipWhiteSpace s in
  let '(sign, s) :=
    match s with
    | String "-" s' => (-1, s')
    | String "+" s' => (1, s')
    | _ => (1, s)
    end in
  let '(radix, s) :=
    match s with
    | String "0" (String "x" s') | String "0" (String "X" s') => (16%N, s')
    | _ => (10%N, s)
    end in
  match readDigits radix None s with
  | Some n => roundDouble (sign * Z.of_N n)
  | None => NaN
  end.

(** [String(v)]. *)
Fixpoint toString (v : JsValue) : string :=
  match v with
  | JUndefined => "undefined"
  | JNull => "null"
  | JBool b => if b then "true" else "false"
  | JNum n => numToString n
  | JStr s => s
  | JArr elems =>
      (fix join (l : list JsValue) : string :=
         match l with
         | [] => ""
         | x :: rest =>
             let sx := if nullish x then "" else toString x in
             match rest with
             | [] => sx
             | _ :: _ => sx +:+ "," +:+ join rest
             end
         end) elems
  | JObj _ => "[object Object]"
  end.

End Js.
Export Js.

(* ===================================================================== *)
(** * The query client *)
(* ===================================================================== *)

(** The part of the TanStack Query (v5) client that useUsers.ts drives:
    the query cache, [cancelQueries], [getQueriesData], [setQueryData],
    [setQueriesData] and [invalidateQueries], and the observer [useQuery]
    mounts.  The cache is a [Map] from key hash to query, iterated in
    insertion order; it is kept as an association list from hashes
    ([hashKey]) that are pairwise distinct ([wfCache]).  The key a query
    was built with is kept as its hash: useUsers.ts hands the keys it reads
    from the cache back to the client only, which hashes them.  The
    network is taken to be reachable, so that a fetch that starts is
    fetching, not paused. *)
Module QueryClient.

(** [PaginationParams] as the page builds it for [useUsers]. *)
Record PaginationParams := {
  page : number;
  pageSize : number;
  query : string;
  status : string;
}.

(** An element of a query key: the keys of this code base are
    [['users']] and [['users', 'list', params]]. *)
Inductive KeyPart :=
| KStr (s : string)
| KParams (p : PaginationParams).

Definition QueryKey := list KeyPart.

#[global] Instance PaginationParams_eq_dec : EqDecision PaginationParams.
Proof. solve_decision. Defined.
#[global] Instance KeyPart_eq_dec : EqDecision KeyPart.
Proof. solve_decision. Defined.

(** [hashKey]: the JSON text of the key.  JSON has neither [NaN] nor the
    infinities and writes [null] for the three; everything else in a key
    of this code base has a text of its own.  The hash is kept as the key
    with [NaN] in the place of [null]. *)
Definition hashNumber (n : number) : number :=
  match n with
  | Infinity _ => NaN
  | _ => n
  end.

Definition hashParams (p : PaginationParams) : PaginationParams :=
  {| page := hashNumber (page p);
     pageSize := hashNumber (pageSize p);
     query := query p;
     status := status p |}.

Definition hashPart (part : KeyPart) : KeyPart :=
  match part with
  | KStr s => KStr s
  | KParams p => KParams (hashParams p)
  end.

Definition hashKey (k : QueryKey) : QueryKey := hashPart <$> k.

Inductive FetchStatus := Fetching | Paused | Idle.

(** The state of one query; [data = JUndefined] is a query without data,
    and [active] tells whether a mounted [useQuery] observes it. *)
Record Query := {
  data : JsValue;
  fetchStatus : FetchStatus;
  isInvalidated : bool;
  active : bool;
}.

Definition QueryCache := list (QueryKey * Query).

Definition wfCache (c : QueryCache) : Prop := NoDup c.*1.

(** [partialMatchKey]: a filter key matches the keys it is a prefix of. *)
Fixpoint matchesKey (filters key : QueryKey) : bool :=
  match filters, key with
  | [], _ => true
  | _ :: _, [] => false
  | f :: filters', k :: key' => bool_decide (f = k) && matchesKey filters' key'
  end.

Fixpoint find (k : QueryKey) (c : QueryCache) : option Query :=
  match c with
  | [] => None
  | (k', q) :: rest => if bool_decide (k' = k) then Some q else find k rest
  end.

(** [queryCache.findAll({ queryKey })]. *)
Definition findAll (filters : QueryKey) (c : QueryCache) : QueryCache :=
  List.filter (fun kq => matchesKey filters kq.1) c.

(** [query.cancel({ revert: true })]: the fetch is dropped and the query is
    back to what it was before the fetch started. *)
Definition cancel (q : Query) : Query :=
  {| data := data q; fetchStatus := Idle; isInvalidated := isInvalidated q;
     active := active q |}.

(** [findAll(filters).forEach(f)] for an [f] that changes the query it is
    given and nothing else. *)
Definition forEachMatching (filters : QueryKey) (f : Query -> Query)
    (c : QueryCache) : QueryCache :=
  (fun kq => if matchesKey filters kq.1 then (kq.1, f kq.2) else kq) <$> c.

Definition cancelQueries (filters : QueryKey) (c : QueryCache) : QueryCache :=
  forEachMatching filters cancel c.

Definition getQueriesData (filters : QueryKey) (c : QueryCache)
  : list (QueryKey * JsValue) :=
  (fun kq => (kq.1, data kq.2)) <$> findAll filters c.

(** [query.setData(d, { manual: true })]: the data is replaced, the query is
    no longer invalidated and a running fetch is left alone. *)
Definition setData (d : JsValue) (q : Query) : Query :=
  {| data := d; fetchStatus := fetchStatus q; isInvalidated := false;
     active := active q |}.

(** [queryCache.build]: the query of that key, created empty when absent. *)
Definition newQuery : Query :=
  {| data := JUndefined; fetchStatus := Idle; isInvalidated := false;
     active := false |}.

Fixpoint store (k : QueryKey) (f : Query -> Query) (c : QueryCache) : QueryCache :=
  match c with
  | [] => [(k, f newQuery)]
  | (k', q) :: rest =>
      if bool_decide (k' = k) then (k, f q) :: rest else (k', q) :: store k f rest
  end.

(** [setQueryData(key, updater)]: the updater is applied to the current data
    (undefined when there is none); an undefined result writes nothing. *)
Definition setQueryDataWith (k : QueryKey) (updater : JsValue -> Completion JsValue)
    (c : QueryCache) : QueryCache * option JsError :=
  let prevData := default JUndefined (data <$> find k c) in
  match updater prevData with
  | Throw e => (c, Some e)
  | Normal JUndefined => (c, None)
  | Normal d => (store k (setData d) c, None)
  end.

(** [setQueryData(key, value)]. *)
Definition setQueryData (k : QueryKey) (d : JsValue) (c : QueryCache) : QueryCache :=
  (setQueryDataWith k (fun _ => Normal d) c).1.

(** [findAll(filters).map(({ queryKey }) => setQueryData(queryKey, updater))]:
    the matching queries are visited in cache order; an exception of the
    updater stops the walk and leaves the earlier writes in place. *)
Fixpoint setEach (updater : JsValue -> Completion JsValue) (keys : list QueryKey)
    (c : QueryCache) : QueryCache * option JsError :=
  match keys with
  | [] => (c, None)
  | k :: keys' =>
      match setQueryDataWith k updater c with
      | (c', Some e) => (c', Some e)
      | (c', None) => setEach updater keys' c'
      end
  end.

Definition setQueriesData (filters : QueryKey)
    (updater : JsValue -> Completion JsValue) (c : QueryCache)
  : QueryCache * option JsError :=
  setEach updater (findAll filters c).*1 c.

(** The query [setQueryData(key, updater)] leaves behind when the updater
    returns: unchanged on undefined, carrying the new data otherwise. *)
Definition written (updater : JsValue -> Completion JsValue) (q : Query) : Query :=
  match updater (data q) with
  | Normal JUndefined | Throw _ => q
  | Normal d => setData d q
  end.

(** [query.invalidate()]. *)
Definition invalidate (q : Query) : Query :=
  {| data := data q; fetchStatus := fetchStatus q; isInvalidated := true;
     active := active q |}.

Definition hasData (q : Query) : bool :=
  match data q with
  | JUndefined => false
  | _ => true
  end.

(** [query.fetch(options, { cancelRefetch })]: an idle query starts to
    fetch; one that is fetching already goes on with the fetch it has,
    unless it holds data and [cancelRefetch] is set, and then it starts
    over. *)
Definition fetch (cancelRefetch : bool) (q : Query) : Query :=
  match fetchStatus q with
  | Idle =>
      {| data := data q; fetchStatus := Fetching;
         isInvalidated := isInvalidated q; active := active q |}
  | _ =>
      if cancelRefetch && hasData q
      then {| data := data q; fetchStatus := Fetching;
              isInvalidated := isInvalidated q; active := active q |}
      else q
  end.

(** [refetchQueries({ ...filters, type: 'active' })] on one query. *)
Definition refetch (q : Query) : Query :=
  if active q then fetch true q else q.

(** [invalidateQueries({ queryKey })]: every matching query is marked,
    then the matching ones that are observed are fetched again. *)
Definition invalidateQueries (filters : QueryKey) (c : QueryCache) : QueryCache :=
  forEachMatching filters refetch (forEachMatching filters invalidate c).

(** The fetch of a query returns [d]. *)
Definition fetchSuccess (d : JsValue) (q : Query) : Query :=
  {| data := d; fetchStatus := Idle; isInvalidated := false; active := active q |}.

(** ** The observer of [useQuery] *)

(** [isStale]: a query without data or invalidated is stale; one with
    data is stale by its age when [byTime], which the client's
    [staleTime] and the clock decide. *)
Definition isStale (byTime : bool) (q : Query) : bool :=
  negb (hasData q) || isInvalidated q || byTime.

Definition observed (mounted : bool) (q : Query) : Query :=
  {| data := data q; fetchStatus := fetchStatus q;
     isInvalidated := isInvalidated q; active := mounted |}.

(** A render of [useQuery({ queryKey: next, queryFn })] by a component
    whose last render observed [prev], or that mounts when there is none.
    On the same hash the observer stays on its query and nothing happens
    in the cache.  Otherwise it leaves the query of [prev], finds or builds
    the one of [next], and fetches it when it is stale.  What the hook
    leaves unset is the library's default: the query is enabled and
    refetched on mount when stale. *)
Definition observe (byTime : bool) (prev : option QueryKey) (next : QueryKey)
    (c : QueryCache) : QueryCache :=
  if bool_decide (hashKey <$> prev = Some (hashKey next)) then c
  else
    let left :=
      match prev with
      | Some k =>
          (fun kq => if bool_decide (kq.1 = hashKey k)
                     then (kq.1, observed false kq.2) else kq) <$> c
      | None => c
      end in
    store (hashKey next)
      (fun q => let q := observed true q in
                if isStale byTime q then fetch false q else q)
      left.

End QueryClient.
Export QueryClient.

(* ===================================================================== *)
(** * hooks/useUsers.ts *)
(* ===================================================================== *)

Module UseUsers.

(** [userQueryKeys]. *)
Module userQueryKeys.
Definition all : QueryKey := [KStr "users"].
Definition list (params : PaginationParams) : QueryKey :=
  [KStr "users"; KStr "list"; KParams params].
End userQueryKeys.

(** The variables of the mutation, [{ userId, status }]. *)
Record Variables := {
  userId : string;
  newStatus : string;
}.

(** The updater handed to [setQueriesData] in [onMutate]. *)
Definition optimisticUpdate (v : Variables) (old : JsValue) : Completion JsValue :=
  if negb (truthy (optGet (optGet old "data") "users")) then Normal old
  else
    oldData ← getProp old "data";
    oldUsers ← getProp oldData "users";
    users ← arrayMap (fun user =>
               id ← getProp user "userId";
               if strictEqStr id (userId v)
               then Normal (JObj (setProp "status" (JStr (newStatus v)) (ownProps user)))
               else Normal user) oldUsers;
    Normal (JObj (setProp "data"
                    (JObj (setProp "users" (JArr users) (ownProps oldData)))
                    (ownProps old))).

(** The context [onMutate] returns: [{ previousUsers }]. *)
Definition Context := list (QueryKey * JsValue).

Definition onMutate (v : Variables) (c : QueryCache)
  : QueryCache * Completion Context :=
  let c1 := cancelQueries userQueryKeys.all c in
  let previousUsers := getQueriesData userQueryKeys.all c1 in
  match setQueriesData userQueryKeys.all (optimisticUpdate v) c1 with
  | (c2, None) => (c2, Normal previousUsers)
  | (c2, Some e) => (c2, Throw e)
  end.

(** [onError]; the context is undefined when [onMutate] itself threw. *)
Definition onError (context : option Context) (c : QueryCache) : QueryCache :=
  match context with
  | Some previousUsers =>
      foldl (fun c kd => setQueryData kd.1 kd.2 c) c previousUsers
  | None => c
  end.

Definition onSettled (c : QueryCache) : QueryCache :=
  invalidateQueries userQueryKeys.all c.

End UseUsers.

(* ===================================================================== *)
(** * hooks/useLocalStorage *)
(* ===================================================================== *)

Module UseLocalStorage.

(** [window.localStorage.getItem]: the item, [null] when there is none, or
    an exception when the store cannot be reached. *)
Definition Storage := string -> Completion (option string).

(** What the hook writes to the console. *)
Inductive Console :=
| Warn (message : string) (error : JsError).

Section useLocalStorage.
Context {T : Type}.
(** [JSON.parse], which throws on text that is not JSON. *)
Variable JSON_parse : string -> Completion T.

(** The initialiser of [storedValue]: the value the hook returns on the
    first render, with the warnings it logged. *)
Definition initialValue (storage : Storage) (key : string) (defaultValue : T)
  : T * list Console :=
  let caught e :=
    (defaultValue,
     [Warn ("Error reading localStorage key " +:+ String "034" key +:+ String "034" ":") e]) in
  match storage key with
  | Throw e => caught e
  | Normal item =>
      match item with
      | Some text =>
          if bool_decide (text = "") then (defaultValue, [])
          else match JSON_parse text with
               | Normal value => (value, [])
               | Throw e => caught e
               end
      | None => (defaultValue, [])
      end
  end.
End useLocalStorage.

(** The browser's store as the hook meets it: the items it holds, the
    exception reaching [window.localStorage] raises when access is denied,
    and the one [setItem] raises when the store takes no more. *)
Record LocalStorage := {
  items : gmap string string;
  denied : option JsError;
  full : option JsError;
}.

Definition getItem (ls : LocalStorage) : Storage :=
  fun key =>
    match denied ls with
    | Some e => Throw e
    | None => Normal (items ls !! key)
    end.

Definition setItem (ls : LocalStorage) (key text : string) : Completion LocalStorage :=
  match full ls with
  | Some e => Throw e
  | None =>
      Normal {| items := <[key := text]> (items ls);
                denied := denied ls; full := full ls |}
  end.

Section setValue.
Context {T : Type}.
(** [JSON.stringify], which throws on values it cannot serialise. *)
Variable JSON_stringify : T -> Completion string.

(** [setValue]: the new [storedValue], the store and the warnings logged.
    [setStoredValue(value)] runs first; then the store is reached, the
    value serialised and the item written, any exception being caught. *)
Definition setValue (ls : LocalStorage) (key : string) (value : T)
  : T * LocalStorage * list Console :=
  let caught e :=
    (value, ls,
     [Warn ("Error setting localStorage key " +:+ String "034" key +:+ String "034" ":") e]) in
  match denied ls with
  | Some e => caught e
  | None =>
      match JSON_stringify value with
      | Throw e => caught e
      | Normal text =>
          match setItem ls key text with
          | Throw e => caught e
          | Normal ls' => (value, ls', [])
          end
      end
  end.
End setValue.

End UseLocalStorage.

(* ===================================================================== *)
(** * components/tables/DynamicGrid.tsx *)
(* ===================================================================== *)

Module DynamicGrid.

Record ColumnMetadata := {
  key : string;
  header : string;
  type : string;
  width : option Z;
  sorting : option bool;
  pinned : option bool;
  format : option string;
}.

(** [Group] of types: an element of the [groups] of a user. *)
Record Group := {
  groupId : string;
  groupName : string;
}.

(** The object a [Group] is at run time. *)
Definition groupValue (g : Group) : JsValue :=
  JObj [("groupId", JStr (groupId g)); ("groupName", JStr (groupName g))].

(** What a cell renderer returns. *)
#[warnings="-register-all"]
Inductive ReactNode :=
| Child (value : JsValue)
    (** a value handed to React as it is *)
| Text (s : string)
    (** a string computed by the renderer *)
| Chip (key : option JsValue) (label : JsValue)
       (color : option string) (variant : option string)
| Span (color : string) (text : string)
| Box (children : list ReactNode).

Section renderCellByType.
(** [formatDate] of utils, which is not part of these sources. *)
Variable formatDate : JsValue -> option string -> Completion string.

Definition renderCellByType (value : JsValue) (columnMeta : ColumnMetadata)
  : Completion ReactNode :=
  if bool_decide (type columnMeta = "string") then
    Normal (Child value)
  else if bool_decide (type columnMeta = "badge") then
    Normal (Chip None value
              (Some (if strictEqStr value "active" then "success" else "default"))
              None)
  else if bool_decide (type columnMeta = "date") then
    s ← formatDate value (format columnMeta); Normal (Text s)
  else if bool_decide (type columnMeta = "chiplist") then
    let groups := value in
    noGroups ← (if negb (truthy groups) then Normal true
                else len ← getProp groups "length"; Normal (strictEqZero len));
    if noGroups : bool then Normal (Span "#999" "No groups")
    else
      chips ← arrayMap (fun group =>
                 groupId ← getProp group "groupId";
                 groupName ← getProp group "groupName";
                 Normal (Chip (Some groupId) groupName None (Some "outlined")))
               groups;
      Normal (Box chips)
  else
    Normal (Text (toString value)).
End renderCellByType.

(** Column visibility as the table reads it: a column is hidden only when
    the state maps its id to [false]. *)
Definition isVisible (columnVisibility : gmap string bool) (columnId : string) : bool :=
  default true (columnVisibility !! columnId).

End DynamicGrid.

(* ===================================================================== *)
(** * components/tables/UserActions.tsx *)
(* ===================================================================== *)

Module UserActions.

(** The props of the component; [onToggleStatus] is always the page's
    [handleToggleStatus]. *)
Record Props := {
  user : JsValue;
  isUpdating : bool;
}.

(** What the component renders: the progress indicator, or the toggle
    button of an active or inactive user. *)
Inductive Rendered :=
| CircularProgress
| IconButton (isActive : bool) (ariaLabel : string).

Definition render (props : Props) : Completion Rendered :=
  if isUpdating props then Normal CircularProgress
  else
    status ← getProp (user props) "status";
    name ← getProp (user props) "name";
    let isActive := strictEqStr status "active" in
    Normal (IconButton isActive
              ((if isActive then "Deactivate " else "Activate ") +:+ toString name)).

(** The row offers a control the user can act on. *)
Definition hasControl (r : Rendered) : bool :=
  match r with
  | CircularProgress => false
  | IconButton _ _ => true
  end.

(** A call of [onToggleStatus(userId, newStatus)]. *)
Record ToggleCall := {
  calledUserId : JsValue;
  calledStatus : string;
}.

(** The handlers: the new [confirmDialogOpen] and the calls made. *)
Definition handleToggle (user : JsValue) (confirmDialogOpen : bool)
  : Completion (bool * list ToggleCall) :=
  status ← getProp user "status";
  if strictEqStr status "active" then Normal (true, [])
  else
    userId ← getProp user "userId";
    Normal (confirmDialogOpen, [{| calledUserId := userId; calledStatus := "active" |}]).

Definition handleConfirmDeactivate (user : JsValue) (confirmDialogOpen : bool)
  : Completion (bool * list ToggleCall) :=
  userId ← getProp user "userId";
  Normal (false, [{| calledUserId := userId; calledStatus := "inactive" |}]).

Definition handleCancelDeactivate (confirmDialogOpen : bool)
  : Completion (bool * list ToggleCall) :=
  Normal (false, []).

(** What the user can do with the component. *)
Inductive Action :=
| ClickToggle
| ConfirmDeactivate
| CancelDeactivate.

(** An action on what is rendered: nothing but the progress indicator
    while updating; the icon button otherwise; the two buttons of the
    dialog only while it is open. *)
Definition act (props : Props) (confirmDialogOpen : bool) (a : Action)
  : Completion (bool * list ToggleCall) :=
  if isUpdating props then Normal (confirmDialogOpen, [])
  else
    match a with
    | ClickToggle => handleToggle (user props) confirmDialogOpen
    | ConfirmDeactivate =>
        if confirmDialogOpen
        then handleConfirmDeactivate (user props) confirmDialogOpen
        else Normal (confirmDialogOpen, [])
    | CancelDeactivate =>
        if confirmDialogOpen
        then handleCancelDeactivate confirmDialogOpen
        else Normal (confirmDialogOpen, [])
    end.

(** A sequence of actions on the component while its props stay the same. *)
Fixpoint interact (props : Props) (confirmDialogOpen : bool) (actions : list Action)
  : Completion (bool * list ToggleCall) :=
  match actions with
  | [] => Normal (confirmDialogOpen, [])
  | a :: actions' =>
      r ← act props confirmDialogOpen a;
      r' ← interact props r.1 actions';
      Normal (r'.1, r.2 ++ r'.2)
  end.

End UserActions.

(* ===================================================================== *)
(** * components/tables/TableLoadingSkeleton *)
(* ===================================================================== *)

Module TableLoadingSkeleton.
Import DynamicGrid.

#[warnings="-register-all"]
Inductive Skeleton :=
| SkText (width : string) (height : Z)
| SkRounded (width height : Z)
| SkCircular (width height : Z)
| SkBox (children : list Skeleton).

(** The placeholder of a body cell, by the column it stands for. *)
Definition bodyCell (column : ColumnMetadata) : Skeleton :=
  if bool_decide (type column = "badge") then SkRounded 70 24
  else if bool_decide (type column = "chiplist")
  then SkBox [SkRounded 60 24; SkRounded 60 24]
  else if bool_decide (key column = "actions") then SkCircular 32 32
  else SkText "90%" 20.

(** The length [Array.from({ length: n })] gives its result: none for
    [NaN] and for a negative [n]; from 2^32 on there is no result, the
    array cannot be created and a [RangeError] is thrown. *)
Definition arrayLength (n : number) : option nat :=
  match n with
  | NaN => Some 0%nat
  | Int z => if z <? 2 ^ 32 then Some (Z.to_nat z) else None
  | Infinity negative => if negative then Some 0%nat else None
  end.

(** The rendered table: the cells of the head and the rows of the body. *)
Record Rendered := {
  head : list Skeleton;
  body : list (list Skeleton);
}.

(** The component; [None] is the [RangeError] of a row count too large. *)
Definition render (columns : list ColumnMetadata) (rowCount : option number)
  : option Rendered :=
  rows ← arrayLength (default (Int 10) rowCount);
  Some {| head := (fun _ => SkText "80%" 24) <$> columns;
          body := replicate rows (bodyCell <$> columns) |}.

End TableLoadingSkeleton.

(* ===================================================================== *)
(** * components/tables/DynamicGrid.tsx, the component *)
(* ===================================================================== *)

Module DynamicGridComponent.
Import DynamicGrid.

(** The column definition handed to the table for a column of the
    metadata; its [Cell] is [renderCellByType] for that column. *)
Record ColumnDef := {
  accessorKey : string;
  columnHeader : string;
  size : option Z;
  enableSorting : bool;
  enablePinning : bool;
  cellMeta : ColumnMetadata;
}.

Definition tableColumns (columns : list ColumnMetadata) : list ColumnDef :=
  (fun colMeta =>
     {| accessorKey := key colMeta;
        columnHeader := header colMeta;
        size := width colMeta;
        enableSorting := default false (sorting colMeta);
        enablePinning := default false (pinned colMeta);
        cellMeta := colMeta |}) <$> columns.

(** What the component returns: the skeleton while the first page loads,
    the table on its columns and rows otherwise. *)
Inductive View :=
| Loading (skeleton : TableLoadingSkeleton.Rendered)
| Table (columns : list ColumnDef) (rows : list JsValue).

(** The component; [None] is the exception of the skeleton. *)
Definition DynamicGrid (data : list JsValue) (columns : list ColumnMetadata)
    (isLoading : bool) (pageSize : number) : option View :=
  if isLoading && bool_decide (length data = 0%nat)
  then Loading <$> TableLoadingSkeleton.render columns (Some pageSize)
  else Some (Table (tableColumns columns) data).

End DynamicGridComponent.

(* ===================================================================== *)
(** * components/ErrorBoundary *)
(* ===================================================================== *)

Module ErrorBoundary.

Section ErrorBoundary.
(** The errors thrown by the children, the component stacks React reports
    and the nodes rendered. *)
Context {Err Info Node : Type}.

Record State := {
  hasError : bool;
  error : option Err;
  errorInfo : option Info;
}.

Definition initialState : State :=
  {| hasError := false; error := None; errorInfo := None |}.

Definition getDerivedStateFromError (e : Err) : State :=
  {| hasError := true; error := Some e; errorInfo := None |}.

(** [componentDidCatch]: [setState({ error, errorInfo })] merges the two
    fields into the state. *)
Definition componentDidCatch (e : Err) (info : Info) (st : State) : State :=
  {| hasError := hasError st; error := Some e; errorInfo := Some info |}.

Definition handleReset (st : State) : State :=
  {| hasError := false; error := None; errorInfo := None |}.

(** What [render] returns. *)
Inductive Output :=
| CustomFallback (fallback : Node)
| DefaultFallback (details : option Err)
| Children (children : Node).

Definition render (fallback : option Node) (children : Node) (st : State) : Output :=
  if hasError st then
    match fallback with
    | Some f => CustomFallback f
    | None => DefaultFallback (error st)
    end
  else Children children.

(** What happens to the boundary: a child throws while rendering, or the
    user presses "Try Again". *)
Inductive Event :=
| ChildThrows (e : Err) (info : Info)
| TryAgain.

Definition step (st : State) (ev : Event) : State :=
  match ev with
  | ChildThrows e info => componentDidCatch e info (getDerivedStateFromError e)
  | TryAgain => handleReset st
  end.

Definition run (events : list Event) : State := foldl step initialState events.
End ErrorBoundary.

Arguments State : clear implicits.
Arguments Output : clear implicits.
Arguments Event : clear implicits.

End ErrorBoundary.

(* ===================================================================== *)
(** * pages/UsersPage/UsersPage.tsx *)
(* ===================================================================== *)

Module UsersPage.
Import UseUsers.

(** ** View state *)

(** [MRT_PaginationState]. *)
Record PaginationState := {
  pageIndex : number;
  pageSize : number;
}.

(** An element of [MRT_SortingState]. *)
Record ColumnSort := {
  id : string;
  desc : bool;
}.

(** The state variables of the component, with the value [useDebounce]
    currently returns for [searchQuery]. *)
Record State := {
  searchQuery : string;
  statusFilter : string;
  pagination : PaginationState;
  columnVisibility : gmap string bool;
  sorting : list ColumnSort;
  debouncedSearchQuery : string;
}.

#[global] Instance PaginationState_eq_dec : EqDecision PaginationState.
Proof. solve_decision. Defined.
#[global] Instance ColumnSort_eq_dec : EqDecision ColumnSort.
Proof. solve_decision. Defined.

(** ** The URL search parameters *)

(** [searchParams.get(k) || d]: the default replaces an absent and an empty
    value alike. *)
Definition getOr (searchParams : gmap string string) (k d : string) : string :=
  match searchParams !! k with
  | Some s => if bool_decide (s = "") then d else s
  | None => d
  end.

(** Modelled from the spec: [useDebounce] of hooks is not among the
    sources.  This is what it returns on the first render: nothing has been
    typed yet, and the stabilised value is the text the view starts with. *)
Definition useDebounce_initial (value : string) : string := value.

(** The initial state read from the URL (the [useState] initialisers).
    [columnVisibility] comes from the settings store, not from the URL. *)
Definition decode (searchParams : gmap string string)
    (storedVisibility : gmap string bool) : State :=
  let searchQuery := getOr searchParams "search" "" in
  {| searchQuery := searchQuery;
     statusFilter := getOr searchParams "status" "all";
     pagination :=
       {| pageIndex :=
            match searchParams !! "page" with
            | Some s =>
                if bool_decide (s = "") then Int 0
                else numSub (parseInt s) (Int 1)
            | None => Int 0
            end;
          pageSize := Int 10 |};
     columnVisibility := storedVisibility;
     sorting :=
       match searchParams !! "sort" with
       | Some sortParam =>
           if bool_decide (sortParam = "") then []
           else [{| id := sortParam;
                    desc := bool_decide (searchParams !! "order" = Some "desc") |}]
       | None => []
       end;
     debouncedSearchQuery := useDebounce_initial searchQuery |}.

(** The parameters the effect hands to [setSearchParams] with
    [{ replace: true }]: they replace the URL's. *)
Definition encode (st : State) : gmap string string :=
  let params : gmap string string :=
    {[ "page" := numToString (numAdd (pageIndex (pagination st)) (Int 1)) ]} in
  let params :=
    if bool_decide (statusFilter st ≠ "all")
    then <["status" := statusFilter st]> params else params in
  let params :=
    if bool_decide (debouncedSearchQuery st ≠ "")
    then <["search" := debouncedSearchQuery st]> params else params in
  match sorting st with
  | s :: _ =>
      <["order" := if desc s then "desc" else "asc"]> (<["sort" := id s]> params)
  | [] => params
  end.

(** ** The read path *)

(** The argument of [useUsers]. *)
Definition usersParams (st : State) : PaginationParams :=
  {| page := numAdd (pageIndex (pagination st)) (Int 1);
     QueryClient.pageSize := pageSize (pagination st);
     query := debouncedSearchQuery st;
     status := statusFilter st |}.

(** The key of the query the page reads, as the cache files it. *)
Definition usersQueryKey (st : State) : QueryKey :=
  hashKey (userQueryKeys.list (usersParams st)).

(** ** Handlers *)

Definition handleSearchChange (value : string) (st : State) : State :=
  {| searchQuery := value;
     statusFilter := statusFilter st;
     pagination := {| pageIndex := Int 0; pageSize := pageSize (pagination st) |};
     columnVisibility := columnVisibility st;
     sorting := sorting st;
     debouncedSearchQuery := debouncedSearchQuery st |}.

Definition handleStatusFilterChange (value : string) (st : State) : State :=
  {| searchQuery := searchQuery st;
     statusFilter := value;
     pagination := {| pageIndex := Int 0; pageSize := pageSize (pagination st) |};
     columnVisibility := columnVisibility st;
     sorting := sorting st;
     debouncedSearchQuery := debouncedSearchQuery st |}.

Definition handlePaginationChange (newPagination : PaginationState) (st : State) : State :=
  {| searchQuery := searchQuery st;
     statusFilter := statusFilter st;
     pagination := newPagination;
     columnVisibility := columnVisibility st;
     sorting := sorting st;
     debouncedSearchQuery := debouncedSearchQuery st |}.

Definition setSorting (newSorting : list ColumnSort) (st : State) : State :=
  {| searchQuery := searchQuery st;
     statusFilter := statusFilter st;
     pagination := pagination st;
     columnVisibility := columnVisibility st;
     sorting := newSorting;
     debouncedSearchQuery := debouncedSearchQuery st |}.

Definition setColumnVisibility (visibility : gmap string bool) (st : State) : State :=
  {| searchQuery := searchQuery st;
     statusFilter := statusFilter st;
     pagination := pagination st;
     columnVisibility := visibility;
     sorting := sorting st;
     debouncedSearchQuery := debouncedSearchQuery st |}.

(** A render in which [useDebounce] returns a new value.  The hook only
    returns a string: whatever it emits, no other state variable is within
    its reach. *)
Definition debounceSettle (emitted : string) (st : State) : State :=
  {| searchQuery := searchQuery st;
     statusFilter := statusFilter st;
     pagination := pagination st;
     columnVisibility := columnVisibility st;
     sorting := sorting st;
     debouncedSearchQuery := emitted |}.

(** What can happen to the view state. *)
Inductive Event :=
| SearchChange (value : string)
| DebounceSettle (emitted : string)
| StatusFilterChange (value : string)
| PaginationChange (newPagination : PaginationState)
| SortingChange (newSorting : list ColumnSort)
| ColumnVisibilityChange (visibility : gmap string bool).

Definition step (st : State) (e : Event) : State :=
  match e with
  | SearchChange value => handleSearchChange value st
  | DebounceSettle emitted => debounceSettle emitted st
  | StatusFilterChange value => handleStatusFilterChange value st
  | PaginationChange newPagination => handlePaginationChange newPagination st
  | SortingChange newSorting => setSorting newSorting st
  | ColumnVisibilityChange visibility => setColumnVisibility visibility st
  end.

Definition run (st : State) (events : list Event) : State := foldl step st events.

(** The values the controls can hand to the handlers: the status menu has
    three items, and the table sorts by columns, whose ids are not empty. *)
Definition offered (e : Event) : Prop :=
  match e with
  | StatusFilterChange value => value ∈ ["all"; "active"; "inactive"]
  | SortingChange newSorting => Forall (fun s => id s ≠ "") newSorting
  | _ => True
  end.

(** The view states the page can be in: the one it mounts with, for any
    URL and any stored visibility, and those the events lead to. *)
Inductive produced : State -> Prop :=
| produced_mount searchParams storedVisibility :
    produced (decode searchParams storedVisibility)
| produced_step st e :
    produced st -> offered e -> produced (step st e).

(** A status filter that is not empty and sorts by columns whose ids are
    not empty: what [encode] writes of such a state, [decode] reads back. *)
Definition encodable (st : State) : Prop :=
  statusFilter st ≠ "" ∧ Forall (fun s => id s ≠ "") (sorting st).

(** ** Column visibility *)

Section columnVisibility.
Variable JSON_parse : string -> Completion (gmap string bool).

(** [useLocalStorage('users-table-column-visibility', {})] on the first
    render. *)
Definition initialColumnVisibility (storage : UseLocalStorage.Storage)
  : gmap string bool * list UseLocalStorage.Console :=
  UseLocalStorage.initialValue JSON_parse storage "users-table-column-visibility" ∅.
End columnVisibility.

(** ** The status mutation *)

(** Calls that leave the page. *)
Inductive Effect :=
| UpdateUserStatus (userId status : string)
    (** [updateUserStatus] of the api, the [mutationFn] *)
| EnqueueSnackbar (message variant : string).

(** How the api call ends; an acknowledgement carries [response.message]. *)
Inductive Outcome :=
| Resolved (message : string)
| Rejected.

(** The mutation of the page.  The library holds the variables and the
    context [onMutate] returned while the mutation is pending, to pass
    them to [onError] and [onSettled], and keeps them in the settled state
    until the next call; there is no context when [onMutate] threw. *)
Inductive MutationState :=
| Idle
| Pending (variables : Variables) (context : Context)
| Success (variables : Variables) (context : Context)
| Error (variables : Variables) (context : option Context).

Record Runtime := {
  client : QueryCache;
  mutation : MutationState;
  effects : list Effect;
}.

(** [isPending] of [useUpdateUserStatus()], which the page calls [isUpdating]. *)
Definition isPending (m : MutationState) : bool :=
  match m with
  | Pending _ _ => true
  | _ => false
  end.

Definition failureSnackbar : Effect :=
  EnqueueSnackbar "Failed to update user status" "error".

(** [handleToggleStatus]: [updateStatus(variables, callbacks)] up to the
    call of the [mutationFn].  [onMutate] runs first; should it throw, the
    mutation fails on the spot: [onError] without a context, [onSettled],
    then the page's [onError]. *)
Definition handleToggleStatus (userId newStatus : string) (rt : Runtime) : Runtime :=
  let variables := {| UseUsers.userId := userId; UseUsers.newStatus := newStatus |} in
  match onMutate variables (client rt) with
  | (c, Normal context) =>
      {| client := c;
         mutation := Pending variables context;
         effects := effects rt ++ [UpdateUserStatus userId newStatus] |}
  | (c, Throw _) =>
      {| client := onSettled (onError None c);
         mutation := Error variables None;
         effects := effects rt ++ [failureSnackbar] |}
  end.

(** The api call settles: the hook's [onError] on a failure, the hook's
    [onSettled] in both cases, then the page's [onSuccess] or [onError]. *)
Definition settle (outcome : Outcome) (rt : Runtime) : Runtime :=
  match mutation rt with
  | Pending variables context =>
      match outcome with
      | Resolved message =>
          {| client := onSettled (client rt);
             mutation := Success variables context;
             effects := effects rt ++ [EnqueueSnackbar message "success"] |}
      | Rejected =>
          {| client := onSettled (onError (Some context) (client rt));
             mutation := Error variables (Some context);
             effects := effects rt ++ [failureSnackbar] |}
      end
  | _ => rt
  end.

(** ** Rows *)

(** A row of [usersWithActions]: the user's own fields and the element of
    the actions column. *)
Record Row := {
  fields : list (string * JsValue);
  actions : UserActions.Props;
}.

(** [(data?.data?.users || []).map(...)] for the [data] of the query. *)
Definition usersWithActions (data : JsValue) (isUpdating : bool)
  : Completion (list Row) :=
  let users := optGet (optGet data "data") "users" in
  arrayMap (fun user =>
      Normal {| fields := ownProps user;
                actions := {| UserActions.user := user;
                              UserActions.isUpdating := isUpdating |} |})
    (if truthy users then users else JArr []).

(** The rows the page shows for a runtime and a view state. *)
Definition rows (rt : Runtime) (st : State) : Completion (list Row) :=
  usersWithActions
    (default JUndefined (data <$> find (usersQueryKey st) (client rt)))
    (isPending (mutation rt)).

End UsersPage.

(* ===================================================================== *)
(** * Vocabulary of the statements *)
(* ===================================================================== *)

Module Family.
Import UseUsers.

(** The keys of the list-query family: those that start with ['users']. *)
Definition inFamily (k : QueryKey) : bool :=
  match k with
  | part :: _ => bool_decide (part = KStr "users")
  | [] => false
  end.

(** The key of the list query for [params], ['users', 'list', params], as
    the cache files it. *)
Definition listKey (params : PaginationParams) : QueryKey :=
  hashKey [KStr "users"; KStr "list"; KParams params].

(** [v?.data?.users]. *)
Definition usersOf (v : JsValue) : JsValue := optGet (optGet v "data") "users".

(** A cached value as [fetchUsers] types it, or no value: the users, when
    there are any, are an array without holes. *)
Definition responseShaped (v : JsValue) : bool :=
  negb (truthy (usersOf v))
  || match usersOf v with
     | JArr users => forallb (fun u => negb (nullish u)) users
     | _ => false
     end.

Definition typedCache (c : QueryCache) : bool :=
  forallb (fun kq => implb (inFamily kq.1) (responseShaped (data kq.2))) c.

(** [o'] reads like [o] on every property but [k]. *)
Definition sameExcept (k : string) (o o' : JsValue) : Prop :=
  ∀ k', k' ≠ k → optGet o' k' = optGet o k'.

(** The record [u] after the write: the one whose id is [userId] carries
    the new status and all its other fields, every other one is itself. *)
Definition recordRewritten (userId newStatus : string) (u u' : JsValue) : Prop :=
  if strictEqStr (optGet u "userId") userId
  then optGet u' "status" = JStr newStatus ∧ sameExcept "status" u u'
  else u' = u.

(** The cached value [old] after the write. *)
Definition entryRewritten (userId newStatus : string) (old new : JsValue) : Prop :=
  match usersOf old with
  | JArr users =>
      ∃ users', usersOf new = JArr users'
        ∧ Forall2 (recordRewritten userId newStatus) users users'
        ∧ sameExcept "users" (optGet old "data") (optGet new "data")
        ∧ sameExcept "data" old new
  | _ => new = old
  end.

(** The pairs [getQueriesData] yields for the family: key and data of every
    entry, in cache order. *)
Definition familySnapshot (c : QueryCache) : list (QueryKey * JsValue) :=
  (fun kq => (kq.1, data kq.2)) <$> List.filter (fun kq => inFamily kq.1) c.

(** Every entry of the family is marked invalidated. *)
Definition familyInvalidated (c : QueryCache) : Prop :=
  ∀ k q, inFamily k = true → find k c = Some q → isInvalidated q = true.

(** Every list query the cache holds is fetched by the next view that
    turns to it: whatever the age of its data, and whether the view mounts
    or comes from another query, the query is then observed and a fetch
    of it is under way. *)
Definition refetchedOnRead (c : QueryCache) : Prop :=
  ∀ byTime prev params,
    is_Some (find (listKey params) c) →
    hashKey <$> prev ≠ Some (listKey params) →
    ∃ q, find (listKey params)
           (observe byTime prev (userQueryKeys.list params) c) = Some q
         ∧ active q = true ∧ fetchStatus q ≠ QueryClient.Idle.

(** The page index is [NaN] or an integer from -2^53 to 2^53 - 1: it and
    the page after it lie where every integer is a double. *)
Definition safePage (n : number) : Prop :=
  match n with
  | NaN => True
  | Int z => safe z ∧ safe (z + 1)
  | Infinity _ => False
  end.

(** The record [u] as the callback of [map] returns it. *)
Definition updatedRecord (v : Variables) (u : JsValue) : JsValue :=
  if strictEqStr (optGet u "userId") (userId v)
  then JObj (setProp "status" (JStr (newStatus v)) (ownProps u))
  else u.

(** The object literal the updater builds around the new users:
    [{ ...old, data: { ...old.data, users } }]. *)
Definition withUsers (old : JsValue) (users : list JsValue) : JsValue :=
  JObj (setProp "data"
          (JObj (setProp "users" (JArr users) (ownProps (optGet old "data"))))
          (ownProps old)).

End Family.
Export Family.

(* ===================================================================== *)
(** * Sample data *)
(* ===================================================================== *)

Module Samples.
Import UseUsers UsersPage.

Definition ada : JsValue :=
  JObj [("userId", JStr "u1"); ("name", JStr "Ada"); ("status", JStr "active");
        ("groups", JArr [JObj [("groupId", JStr "g1"); ("groupName", JStr "Engineering")]])].

Definition bob : JsValue :=
  JObj [("userId", JStr "u2"); ("name", JStr "Bob"); ("status", JStr "active");
        ("groups", JArr [])].

(** An [ApiResponse] of [fetchUsers]. *)
Definition response (users : list JsValue) : JsValue :=
  JObj [("success", JBool true);
        ("data", JObj [("users", JArr users);
                       ("totalCount", JNum (Int (Z.of_nat (length users))))])].

Definition pageParams (n : Z) : PaginationParams :=
  {| page := Int n; QueryClient.pageSize := Int 10; query := ""; status := "all" |}.

(** Page 1 is cached and on screen, page 2 is being fetched ahead for the
    first time, and a query of another feature sits next to them. *)
Definition cache : QueryCache :=
  [ (userQueryKeys.list (pageParams 1),
     {| data := response [ada; bob]; fetchStatus := QueryClient.Idle;
        isInvalidated := false; active := true |});
    (userQueryKeys.list (pageParams 2),
     {| data := JUndefined; fetchStatus := Fetching; isInvalidated := false;
        active := false |});
    ([KStr "settings"],
     {| data := JObj [("theme", JStr "dark")]; fetchStatus := Fetching;
        isInvalidated := false; active := true |}) ].

Definition runtime : Runtime :=
  {| client := cache; mutation := UsersPage.Idle; effects := [] |}.

(** The page opened on [?page=3]. *)
Definition view : State := decode {[ "page" := "3" ]} ∅.

(** The same view sorted by name, descending. *)
Definition viewSorted : State :=
  step view (SortingChange [{| id := "name"; desc := true |}]).

(** The second page of the active users matching "ada", sorted by name. *)
Definition viewFiltered : State :=
  run view [StatusFilterChange "active"; SearchChange "ada"; DebounceSettle "ada";
            PaginationChange {| pageIndex := Int 1; UsersPage.pageSize := Int 10 |};
            SortingChange [{| id := "name"; desc := true |}]].

(** A store that cannot be read, and one that holds text that is no JSON. *)
Definition deniedStorage : UseLocalStorage.Storage := fun _ => Throw SecurityError.
Definition corruptStorage : UseLocalStorage.Storage := fun _ => Normal (Some "{oops").

(** A parser that rejects everything but the empty object. *)
Definition parseEmptyObject (text : string) : Completion (gmap string bool) :=
  if bool_decide (text = "{}") then Normal ∅ else Throw SyntaxError.

(** The cell value of the spec's example. *)
Definition groups : JsValue :=
  JArr [JObj [("groupId", JStr "g1"); ("groupName", JStr "Engineering")];
        JObj [("groupId", JStr "g2"); ("groupName", JStr "Sales")]].

(** A printer for the empty object only. *)
Definition stringifyEmptyObject (value : gmap string bool) : Completion string :=
  if bool_decide (value = ∅) then Normal "{}" else Throw TypeError.

(** A store in working order that holds nothing. *)
Definition emptyStorage : UseLocalStorage.LocalStorage :=
  {| UseLocalStorage.items := ∅; UseLocalStorage.denied := None;
     UseLocalStorage.full := None |}.

Definition groupsColumn : DynamicGrid.ColumnMetadata :=
  {| DynamicGrid.key := "groups"; DynamicGrid.header := "Groups";
     DynamicGrid.type := "chiplist"; DynamicGrid.width := None;
     DynamicGrid.sorting := None; DynamicGrid.pinned := None;
     DynamicGrid.format := None |}.

End Samples.

(* ===================================================================== *)
(** * Properties *)
(* ===================================================================== *)

(** ** Objects *)

Section ObjectFacts.
Implicit Types (k : string) (v : JsValue) (props : list (string * JsValue)).

Lemma lookupProp_setProp_eq k v props :
  lookupProp k (setProp k v props) = Some v.
Proof.
  induction props as [|[k' v'] props IH]; simpl.
  - by rewrite bool_decide_eq_true_2.
  - destruct (bool_decide (k' = k)) eqn:E; simpl.
    + by rewrite bool_decide_eq_true_2.
    + by rewrite E.
Qed.

Lemma lookupProp_setProp_ne k k' v props :
  k' ≠ k → lookupProp k' (setProp k v props) = lookupProp k' props.
Proof.
  intros Hne. induction props as [|[k0 v0] props IH]; simpl.
  - by rewrite bool_decide_eq_false_2.
  - destruct (bool_decide (k0 = k)) eqn:E; simpl.
    + apply bool_decide_eq_true_1 in E as ->.
      by rewrite !bool_decide_eq_false_2.
    + by rewrite IH.
Qed.

(** A property read that yields an array or an object was made on an
    object. *)
Lemma optGet_JArr v k elems :
  optGet v k = JArr elems → ∃ props, v = JObj props ∧ lookupProp k props = Some (JArr elems).
Proof.
  destruct v; unfold optGet; simpl; try discriminate;
    try (case_bool_decide; discriminate).
  destruct (lookupProp k props) eqn:E; simpl; [|discriminate].
  intros ->. eauto.
Qed.

Lemma optGet_JObj v k props' :
  optGet v k = JObj props' → ∃ props, v = JObj props ∧ lookupProp k props = Some (JObj props').
Proof.
  destruct v; unfold optGet; simpl; try discriminate;
    try (case_bool_decide; discriminate).
  destruct (lookupProp k props) eqn:E; simpl; [|discriminate].
  intros ->. eauto.
Qed.

Lemma getProp_optGet v k : nullish v = false → getProp v k = Normal (optGet v k).
Proof. by destruct v. Qed.

End ObjectFacts.

(** [mapM] in the completion monad: it returns exactly when the callback
    returns on every element. *)
Lemma mapM_Normal {A B} (f : A → Completion B) (l : list A) (l' : list B) :
  Forall2 (λ x y, f x = Normal y) l l' → mapM f l = Normal l'.
Proof.
  induction 1 as [|x y l l' Hxy _ IH]; simpl; [done|].
  by rewrite Hxy; simpl; rewrite IH.
Qed.

(** ** The query cache *)

Section CacheFacts.
Implicit Types (c : QueryCache) (k : QueryKey) (q : Query).

Lemma find_elem c k q : find k c = Some q → (k, q) ∈ c.
Proof.
  induction c as [|[k0 q0] c IH]; simpl; [done|].
  case_bool_decide as E.
  - intros [= ->]. subst. left.
  - intros H. right. auto.
Qed.

Lemma find_notin c k : k ∉ c.*1 → find k c = None.
Proof.
  induction c as [|[k0 q0] c IH]; simpl; [done|].
  intros H. apply not_elem_of_cons in H as [H1 H2].
  rewrite bool_decide_eq_false_2 by congruence. auto.
Qed.

Lemma elem_find c k q : wfCache c → (k, q) ∈ c → find k c = Some q.
Proof.
  unfold wfCache. induction c as [|[k0 q0] c IH]; simpl.
  - intros _ H. by apply elem_of_nil in H.
  - intros Hnd H. apply NoDup_cons in Hnd as [Hk0 Hnd].
    apply elem_of_cons in H as [[= -> ->]|H].
    + by rewrite bool_decide_eq_true_2.
    + rewrite bool_decide_eq_false_2; [auto|].
      intros ->. apply Hk0. apply list_elem_of_fmap. by exists (k, q).
Qed.

Lemma keys_forEachMatching filters f c :
  (forEachMatching filters f c).*1 = c.*1.
Proof.
  unfold forEachMatching. rewrite <-list_fmap_compose.
  apply list_fmap_ext. intros _ [k q] _; simpl. by destruct (matchesKey filters k).
Qed.

Lemma find_forEachMatching filters f c k :
  find k (forEachMatching filters f c)
  = (λ q, if matchesKey filters k then f q else q) <$> find k c.
Proof.
  induction c as [|[k0 q0] c IH]; simpl; [done|].
  destruct (matchesKey filters k0) eqn:Em; simpl;
    (case_bool_decide as E; [subst; simpl; by rewrite ?Em | apply IH]).
Qed.

Lemma keys_invalidateQueries filters c : (invalidateQueries filters c).*1 = c.*1.
Proof. unfold invalidateQueries. by rewrite !keys_forEachMatching. Qed.

Lemma find_invalidateQueries filters c k :
  find k (invalidateQueries filters c)
  = (λ q, if matchesKey filters k then refetch (invalidate q) else q) <$> find k c.
Proof.
  unfold invalidateQueries. rewrite !find_forEachMatching.
  destruct (find k c); simpl; [|done]. by destruct (matchesKey filters k).
Qed.

(** A refetch changes the fetch status and nothing else. *)
Lemma data_refetch q : data (refetch q) = data q.
Proof. unfold refetch, fetch. by repeat case_match. Qed.

Lemma isInvalidated_refetch q : isInvalidated (refetch q) = isInvalidated q.
Proof. unfold refetch, fetch. by repeat case_match. Qed.

Lemma active_refetch q : active (refetch q) = active q.
Proof. unfold refetch, fetch. by repeat case_match. Qed.

Lemma fetchStatus_refetch q :
  fetchStatus q = Idle →
  fetchStatus (refetch q) = if active q then Fetching else Idle.
Proof. unfold refetch, fetch. intros H. destruct (active q); by rewrite ?H. Qed.

Lemma find_store k f c k' :
  find k' (store k f c)
  = if bool_decide (k = k') then Some (f (default newQuery (find k c)))
    else find k' c.
Proof.
  induction c as [|[k0 q0] c IH]; simpl.
  - by case_bool_decide.
  - destruct (bool_decide (k0 = k)) eqn:E0; simpl.
    + apply bool_decide_eq_true_1 in E0 as ->. by case_bool_decide.
    + rewrite IH. apply bool_decide_eq_false_1 in E0.
      repeat case_bool_decide; simpl; congruence.
Qed.

Lemma keys_store k f c : k ∈ c.*1 → (store k f c).*1 = c.*1.
Proof.
  induction c as [|[k0 q0] c IH]; simpl.
  - intros H. by apply elem_of_nil in H.
  - intros H. case_bool_decide as E; simpl; [by subst|].
    f_equal. apply IH. apply elem_of_cons in H as [?|?]; [congruence|done].
Qed.

Lemma find_setQueryData k d c k' :
  find k' (setQueryData k d c)
  = match d with
    | JUndefined => find k' c
    | _ => if bool_decide (k = k') then Some (setData d (default newQuery (find k c)))
           else find k' c
    end.
Proof.
  unfold setQueryData, setQueryDataWith.
  destruct d; simpl; try done; apply find_store.
Qed.

Lemma keys_setQueryData k d c : k ∈ c.*1 → (setQueryData k d c).*1 = c.*1.
Proof.
  intros H. unfold setQueryData, setQueryDataWith.
  destruct d; simpl; try done; by apply keys_store.
Qed.

End CacheFacts.

Section WriteFacts.
Implicit Types (c : QueryCache) (k : QueryKey) (q : Query).

Lemma setQueryDataWith_cons_ne k updater k0 q0 c :
  k ≠ k0 →
  setQueryDataWith k updater ((k0, q0) :: c)
  = (let r := setQueryDataWith k updater c in ((k0, q0) :: r.1, r.2)).
Proof.
  intros Hne. unfold setQueryDataWith; simpl.
  rewrite bool_decide_eq_false_2 by congruence.
  destruct (updater _) as [[]|]; simpl; try done;
    by rewrite bool_decide_eq_false_2 by congruence.
Qed.

Lemma setQueryDataWith_head k0 updater q0 c :
  setQueryDataWith k0 updater ((k0, q0) :: c)
  = match updater (data q0) with
    | Normal _ => ((k0, written updater q0) :: c, None)
    | Throw e => ((k0, q0) :: c, Some e)
    end.
Proof.
  unfold setQueryDataWith, written; simpl.
  rewrite bool_decide_eq_true_2 by done; simpl.
  destruct (updater (data q0)) as [[]|]; simpl; try done;
    by rewrite bool_decide_eq_true_2.
Qed.

Lemma setEach_cons_notin updater keys k0 q0 c :
  k0 ∉ keys →
  setEach updater keys ((k0, q0) :: c)
  = (let r := setEach updater keys c in ((k0, q0) :: r.1, r.2)).
Proof.
  revert c. induction keys as [|k keys IH]; intros c Hk0; simpl; [done|].
  apply not_elem_of_cons in Hk0 as [Hne Hk0].
  rewrite setQueryDataWith_cons_ne by congruence.
  destruct (setQueryDataWith k updater c) as [c' [e|]]; simpl; [done|].
  by apply IH.
Qed.

Lemma findAll_keys_subseteq filters c : (findAll filters c).*1 ⊆ c.*1.
Proof.
  unfold findAll. intros k Hk.
  apply list_elem_of_fmap in Hk as [[k' q] [-> Hin]].
  apply list_elem_of_In, filter_In in Hin as [Hin _].
  apply list_elem_of_fmap. exists (k', q). split; [done|]. by apply list_elem_of_In.
Qed.

(** When the updater returns on every matching entry, [setQueriesData]
    rewrites each of them in place and reports no exception. *)
Lemma setQueriesData_closed filters updater c :
  wfCache c →
  (∀ k q, (k, q) ∈ c → matchesKey filters k = true → ∃ d, updater (data q) = Normal d) →
  setQueriesData filters updater c
  = (forEachMatching filters (written updater) c, None).
Proof.
  unfold setQueriesData, wfCache.
  induction c as [|[k0 q0] c IH]; intros Hnd Hret; [done|].
  change (NoDup (k0 :: c.*1)) in Hnd. apply NoDup_cons in Hnd as [Hk0 Hnd].
  assert (Hnotin : k0 ∉ (findAll filters c).*1).
  { intros H. apply Hk0. by apply (findAll_keys_subseteq filters c). }
  assert (IH' : setEach updater (findAll filters c).*1 c
                = (forEachMatching filters (written updater) c, None)).
  { apply IH; [done|]. intros k q Hin. apply Hret. by right. }
  unfold findAll in *. cbn [List.filter fst snd forEachMatching fmap list_fmap].
  destruct (matchesKey filters k0) eqn:Em; cbn [fst snd fmap list_fmap].
  - destruct (Hret k0 q0) as [d Hd]; [left|done|].
    cbn [setEach]. rewrite setQueryDataWith_head, Hd.
    rewrite setEach_cons_notin by done. by rewrite IH'.
  - rewrite setEach_cons_notin by done. by rewrite IH'.
Qed.

(** ** Writing a snapshot back *)

Lemma onError_frame previous c k :
  k ∉ previous.*1 → find k (UseUsers.onError (Some previous) c) = find k c.
Proof.
  unfold UseUsers.onError. revert c.
  induction previous as [|[k0 d0] previous IH]; intros c Hk; simpl; [done|].
  apply not_elem_of_cons in Hk as [Hne Hk]. simpl in Hne.
  rewrite IH by done. rewrite find_setQueryData.
  destruct d0; try done; by rewrite bool_decide_eq_false_2 by congruence.
Qed.

(** Whatever the cache holds by then, a captured value that is defined is
    written back into its entry; undefined writes nothing. *)
Lemma onError_at previous c k d :
  NoDup previous.*1 → (k, d) ∈ previous →
  find k (UseUsers.onError (Some previous) c)
  = match d with
    | JUndefined => find k c
    | _ => Some (setData d (default newQuery (find k c)))
    end.
Proof.
  unfold UseUsers.onError. revert c.
  induction previous as [|[k0 d0] previous IH]; intros c Hnd Hin; simpl.
  - by apply elem_of_nil in Hin.
  - change (NoDup (k0 :: previous.*1)) in Hnd. apply NoDup_cons in Hnd as [Hk0 Hnd].
    apply elem_of_cons in Hin as [[= -> ->]|Hin].
    + pose proof (onError_frame previous (setQueryData k0 d0 c) k0 Hk0) as Hf.
      unfold UseUsers.onError in Hf. rewrite Hf, find_setQueryData.
      destruct d0; try done; by rewrite bool_decide_eq_true_2.
    + rewrite IH by done.
      assert (k ≠ k0) as Hne.
      { intros ->. apply Hk0. apply list_elem_of_fmap. by exists (k0, d). }
      rewrite find_setQueryData.
      destruct d, d0; try done; by rewrite bool_decide_eq_false_2 by congruence.
Qed.

Lemma onError_keys previous c :
  previous.*1 ⊆ c.*1 → (UseUsers.onError (Some previous) c).*1 = c.*1.
Proof.
  unfold UseUsers.onError. revert c.
  induction previous as [|[k0 d0] previous IH]; intros c Hsub; simpl; [done|].
  assert (k0 ∈ c.*1) as Hk0 by (apply Hsub; left).
  rewrite IH; rewrite keys_setQueryData by done; [done|].
  intros k Hk. apply Hsub. by right.
Qed.

End WriteFacts.

(** ** The optimistic write *)

Section OptimisticUpdate.
Import UseUsers.
Implicit Types (v : Variables) (old : JsValue).

Lemma optimisticUpdate_without_users v old :
  truthy (usersOf old) = false → optimisticUpdate v old = Normal old.
Proof. unfold usersOf, optimisticUpdate. by intros ->. Qed.

(** The callback of [map] on one record. *)
Lemma rewrite_record v (u : JsValue) :
  nullish u = false →
  ∃ u', (id ← getProp u "userId";
         if strictEqStr id (userId v)
         then Normal (JObj (setProp "status" (JStr (newStatus v)) (ownProps u)))
         else Normal u) = Normal u'
        ∧ recordRewritten (userId v) (newStatus v) u u'.
Proof.
  intros Hu. rewrite getProp_optGet by done. cbn [mbind Completion_bind].
  unfold recordRewritten.
  destruct (strictEqStr (optGet u "userId") (userId v)) eqn:E.
  - eexists; split; [done|].
    destruct u; try discriminate; unfold optGet in E; simpl in E;
      try (case_bool_decide; discriminate).
    unfold sameExcept, optGet; simpl. split.
    + by rewrite lookupProp_setProp_eq.
    + intros k' Hk'. by rewrite lookupProp_setProp_ne.
  - eexists; split; done.
Qed.

Lemma rewrite_records v (users : list JsValue) :
  forallb (fun u => negb (nullish u)) users = true →
  ∃ users', mapM (fun user =>
               id ← getProp user "userId";
               if strictEqStr id (userId v)
               then Normal (JObj (setProp "status" (JStr (newStatus v)) (ownProps user)))
               else Normal user) users = Normal users'
            ∧ Forall2 (recordRewritten (userId v) (newStatus v)) users users'.
Proof.
  induction users as [|u users IH]; simpl.
  - intros _. exists []. split; [done|constructor].
  - intros H. apply andb_true_iff in H as [Hu Hus].
    apply negb_true_iff in Hu.
    destruct (rewrite_record v u Hu) as (u' & Hu' & Hr).
    destruct (IH Hus) as (users' & Hm & Hf).
    exists (u' :: users'). split; [|by constructor].
    rewrite Hu'. cbn [mbind Completion_bind]. rewrite Hm. done.
Qed.

(** On a cached value of the expected shape the updater returns, and what
    it returns is the value rewritten. *)
Lemma optimisticUpdate_shaped v old :
  responseShaped old = true →
  ∃ new, optimisticUpdate v old = Normal new
         ∧ entryRewritten (userId v) (newStatus v) old new.
Proof.
  unfold responseShaped, entryRewritten. intros H.
  destruct (truthy (usersOf old)) eqn:Et; simpl in H.
  - destruct (usersOf old) as [| | | | |users|] eqn:Eu; try discriminate.
    unfold usersOf in Eu.
    apply optGet_JArr in Eu as (dprops & Ed & Hus).
    apply optGet_JObj in Ed as (props & -> & Hd).
    destruct (rewrite_records v users H) as (users' & Hm & Hf).
    unfold optimisticUpdate.
    replace (optGet (optGet (JObj props) "data") "users") with (JArr users)
      by (unfold optGet; simpl; rewrite Hd; simpl; by rewrite Hus).
    simpl. rewrite Hd. simpl. rewrite Hus. simpl.
    unfold arrayMap. rewrite Hm. cbn [mbind Completion_bind].
    eexists; split; [done|].
    exists users'. unfold usersOf, sameExcept, optGet; simpl.
    rewrite !lookupProp_setProp_eq; simpl. rewrite lookupProp_setProp_eq; simpl.
    rewrite Hd; simpl.
    repeat split; try done.
    + intros k' Hk'. by rewrite lookupProp_setProp_ne.
    + intros k' Hk'. by rewrite lookupProp_setProp_ne.
  - exists old. split; [by apply optimisticUpdate_without_users|].
    destruct (usersOf old); done.
Qed.

End OptimisticUpdate.

(** ** The mutation *)

Section MutationFacts.
Import UseUsers UsersPage.
Implicit Types (c : QueryCache) (k : QueryKey) (q : Query) (rt : Runtime).

(** The filter of the hook, [{ queryKey: userQueryKeys.all }], selects the
    list-query family. *)
Lemma matchesKey_all k : matchesKey userQueryKeys.all k = inFamily k.
Proof.
  destruct k as [|part k]; [done|]. cbn. rewrite andb_true_r.
  apply bool_decide_ext. split; congruence.
Qed.

Lemma findAll_all c :
  findAll userQueryKeys.all c = List.filter (λ kq, inFamily kq.1) c.
Proof. apply filter_ext. intros kq. apply matchesKey_all. Qed.

(** The key [useUsers] builds is filed as a list key, inside the family. *)
Lemma hashKey_list params :
  hashKey (userQueryKeys.list params) = listKey (hashParams params).
Proof.
  unfold listKey, userQueryKeys.list, hashKey. cbn.
  by destruct params as [[] [] ? ?].
Qed.

Lemma listKey_inFamily params : inFamily (listKey params) = true.
Proof. done. Qed.

Lemma typedCache_elem c k q :
  typedCache c = true → (k, q) ∈ c → inFamily k = true → responseShaped (data q) = true.
Proof.
  unfold typedCache. rewrite forallb_forall. intros H Hin Hk.
  apply list_elem_of_In in Hin. apply H in Hin. simpl in Hin. by rewrite Hk in Hin.
Qed.

Lemma elem_forEachMatching filters f c k q' :
  (k, q') ∈ forEachMatching filters f c →
  ∃ q, (k, q) ∈ c ∧ q' = if matchesKey filters k then f q else q.
Proof.
  unfold forEachMatching. intros H.
  apply list_elem_of_fmap in H as [[k0 q0] [Heq Hin]]. simpl in Heq.
  destruct (matchesKey filters k0) eqn:E; injection Heq as -> ->;
    exists q0; by rewrite E.
Qed.

Lemma snapshot_after_cancel c :
  getQueriesData userQueryKeys.all (cancelQueries userQueryKeys.all c)
  = familySnapshot c.
Proof.
  unfold getQueriesData, cancelQueries, familySnapshot, forEachMatching, findAll.
  induction c as [|[k0 q0] c IH]; [done|].
  cbn [fmap list_fmap fst snd].
  destruct (matchesKey userQueryKeys.all k0) eqn:E;
    cbn [List.filter fst snd]; rewrite <-matchesKey_all, E;
    cbn [fmap list_fmap fst snd]; [f_equal|]; apply IH.
Qed.

Lemma familySnapshot_keys c : (familySnapshot c).*1 ⊆ c.*1.
Proof.
  unfold familySnapshot. rewrite <-list_fmap_compose, <-findAll_all.
  apply (findAll_keys_subseteq userQueryKeys.all c).
Qed.

Lemma familySnapshot_NoDup c : wfCache c → NoDup (familySnapshot c).*1.
Proof.
  unfold wfCache, familySnapshot. rewrite <-list_fmap_compose.
  induction c as [|[k0 q0] c IH]; intros Hnd; [constructor|].
  change (NoDup (k0 :: c.*1)) in Hnd. apply NoDup_cons in Hnd as [Hk0 Hnd].
  cbn [List.filter fst]. destruct (inFamily k0); [|by apply IH].
  cbn [fmap list_fmap compose fst]. apply NoDup_cons. split; [|by apply IH].
  intros H. apply Hk0. apply (findAll_keys_subseteq userQueryKeys.all c).
  by rewrite findAll_all.
Qed.

Lemma familySnapshot_elem c k q :
  (k, q) ∈ c → inFamily k = true → (k, data q) ∈ familySnapshot c.
Proof.
  unfold familySnapshot. intros Hin Hk.
  apply list_elem_of_fmap. exists (k, q). split; [done|].
  apply list_elem_of_In, filter_In. split; [by apply list_elem_of_In|done].
Qed.

Lemma familySnapshot_inFamily c k d :
  (k, d) ∈ familySnapshot c → inFamily k = true.
Proof.
  unfold familySnapshot. intros H.
  apply list_elem_of_fmap in H as [[k0 q0] [[= -> ->] Hin]].
  by apply list_elem_of_In, filter_In in Hin as [_ Hin].
Qed.

(** [onMutate] on a cache of the expected shape: every fetch of the family
    is cancelled, every entry of the family is rewritten, the context is
    the snapshot, and nothing is thrown. *)
Lemma onMutate_typed v c :
  wfCache c → typedCache c = true →
  onMutate v c
  = (forEachMatching userQueryKeys.all (written (optimisticUpdate v))
       (cancelQueries userQueryKeys.all c),
     Normal (familySnapshot c)).
Proof.
  intros Hwf Hty. unfold onMutate.
  rewrite setQueriesData_closed, snapshot_after_cancel; [done| |].
  - unfold wfCache, cancelQueries. by rewrite keys_forEachMatching.
  - intros k q' Hin Hk. apply elem_forEachMatching in Hin as (q & Hin & ->).
    rewrite Hk; simpl.
    destruct (optimisticUpdate_shaped v (data q)) as (new & Hnew & _); [|by eauto].
    rewrite matchesKey_all in Hk. by eapply typedCache_elem.
Qed.

Lemma optimisticUpdate_undefined v old :
  optimisticUpdate v old = Normal JUndefined → old = JUndefined.
Proof.
  unfold optimisticUpdate.
  destruct (truthy _); simpl; [|congruence].
  destruct (getProp old "data") as [oldData|]; simpl; [|done].
  destruct (getProp oldData "users") as [oldUsers|]; simpl; [|done].
  destruct (arrayMap _ oldUsers); simpl; done.
Qed.

(** The data of a family entry once the updater has been through. *)
Lemma written_data v q :
  responseShaped (data q) = true →
  entryRewritten (userId v) (newStatus v) (data q)
    (data (written (optimisticUpdate v) q))
  ∧ fetchStatus (written (optimisticUpdate v) q) = fetchStatus q.
Proof.
  intros Hs. destruct (optimisticUpdate_shaped v (data q) Hs) as (new & Hnew & Hr).
  unfold written. rewrite Hnew.
  destruct new; simpl; try done.
  apply optimisticUpdate_undefined in Hnew. by rewrite Hnew in *.
Qed.

Lemma familyInvalidated_onSettled c : familyInvalidated (onSettled c).
Proof.
  intros k q Hk. unfold onSettled.
  rewrite find_invalidateQueries. rewrite matchesKey_all. rewrite Hk.
  destruct (find k c); simpl; [|done]. intros [= <-].
  by rewrite isInvalidated_refetch.
Qed.

Lemma is_Some_find_setQueryDataWith k updater c k' :
  is_Some (find k' c) → is_Some (find k' (setQueryDataWith k updater c).1).
Proof.
  intros H. unfold setQueryDataWith.
  destruct (updater _) as [[]|]; simpl; try done;
    rewrite find_store; by case_bool_decide.
Qed.

Lemma is_Some_find_setEach updater keys c k' :
  is_Some (find k' c) → is_Some (find k' (setEach updater keys c).1).
Proof.
  revert c. induction keys as [|k keys IH]; intros c H; simpl; [done|].
  pose proof (is_Some_find_setQueryDataWith k updater c k' H) as H'.
  destruct (setQueryDataWith k updater c) as [c' [e|]]; simpl in *; [done|].
  by apply IH.
Qed.

Lemma is_Some_find_forEachMatching filters f c k' :
  is_Some (find k' c) → is_Some (find k' (forEachMatching filters f c)).
Proof. rewrite find_forEachMatching. by apply fmap_is_Some. Qed.

Lemma is_Some_find_onError context c k' :
  is_Some (find k' c) → is_Some (find k' (onError context c)).
Proof.
  destruct context as [previous|]; simpl; [|done].
  revert c. induction previous as [|[k d] previous IH]; intros c H; simpl; [done|].
  apply IH. unfold setQueryData. by apply is_Some_find_setQueryDataWith.
Qed.

Lemma is_Some_find_onMutate v c k' :
  is_Some (find k' c) → is_Some (find k' (onMutate v c).1).
Proof.
  intros H. unfold onMutate, setQueriesData.
  pose proof (is_Some_find_setEach (optimisticUpdate v)
                (findAll userQueryKeys.all (cancelQueries userQueryKeys.all c)).*1
                (cancelQueries userQueryKeys.all c) k'
                (is_Some_find_forEachMatching _ _ _ _ H)) as H'.
  by destruct (setEach _ _ _) as [c' [e|]].
Qed.

Lemma keys_onSettled c : (onSettled c).*1 = c.*1.
Proof. apply keys_invalidateQueries. Qed.

Lemma data_onSettled c k : data <$> find k (onSettled c) = data <$> find k c.
Proof.
  unfold onSettled. rewrite find_invalidateQueries, matchesKey_all.
  destruct (find k c) as [q|]; [|done].
  destruct (inFamily k); simpl; [|done]. by rewrite data_refetch.
Qed.

Lemma is_Some_find_onSettled c k :
  is_Some (find k c) → is_Some (find k (onSettled c)).
Proof. unfold onSettled. rewrite find_invalidateQueries. by apply fmap_is_Some. Qed.

(** Once [onSettled] has run, every entry of the family is marked, and
    a fetch is under way for the observed ones. *)
Lemma settled_onSettled c k q :
  inFamily k = true → find k (onSettled c) = Some q →
  isInvalidated q = true ∧ (active q = true → fetchStatus q ≠ QueryClient.Idle).
Proof.
  intros Hk. unfold onSettled. rewrite find_invalidateQueries, matchesKey_all, Hk.
  destruct (find k c) as [q0|]; simpl; [|done]. intros [= <-].
  rewrite isInvalidated_refetch, active_refetch. split; [done|].
  simpl. intros Ha. unfold refetch, fetch. simpl. rewrite Ha.
  destruct (fetchStatus q0) eqn:Ef; simpl; try done;
    destruct (hasData _); simpl; by rewrite ?Ef.
Qed.

Lemma keys_onError_subseteq context c : c.*1 ⊆ (onError context c).*1.
Proof.
  destruct context as [previous|]; [|done]. unfold onError. revert c.
  induction previous as [|[k d] previous IH]; intros c; simpl; [done|].
  etrans; [|apply IH]. clear. intros k' Hk'.
  unfold setQueryData, setQueryDataWith. destruct d; simpl; try done;
    (induction c as [|[k0 q0] c IHc]; simpl;
     [by apply elem_of_nil in Hk'|];
     apply elem_of_cons in Hk' as [->|Hk'];
     case_bool_decide; simpl; subst;
     [left|left|right; done|right; by apply IHc]).
Qed.

(** An observer that leaves a query changes no other one. *)
Lemma find_unobserve h c k :
  k ≠ h →
  find k ((λ kq : QueryKey * Query,
             if bool_decide (kq.1 = h) then (kq.1, observed false kq.2) else kq) <$> c)
  = find k c.
Proof.
  intros Hne. induction c as [|[k0 q0] c IH]; [done|].
  cbn [fmap list_fmap fst snd].
  destruct (bool_decide (k0 = h)) eqn:E; cbn [find fst snd].
  - apply bool_decide_eq_true_1 in E as ->.
    rewrite bool_decide_eq_false_2 by congruence. apply IH.
  - destruct (bool_decide (k0 = k)); [done|apply IH].
Qed.

(** A list query that is marked invalidated is fetched by the view that
    turns to it. *)
Lemma refetchedOnRead_invalidated c : familyInvalidated c → refetchedOnRead c.
Proof.
  intros Hinv byTime prev params [q Hq] Hprev. unfold observe.
  rewrite hashKey_list.
  assert (Hh : listKey (hashParams params) = listKey params).
  { unfold listKey, hashKey. cbn. by destruct params as [[] [] ? ?]. }
  rewrite Hh, bool_decide_eq_false_2 by done.
  rewrite find_store, bool_decide_eq_true_2 by done.
  match goal with
  | |- context [default newQuery ?read] => assert (Hleft : read = Some q)
  end.
  { destruct prev as [k|]; [|exact Hq]. rewrite find_unobserve; [exact Hq|].
    intros Heq. apply Hprev. simpl. by rewrite Heq. }
  rewrite Hleft. simpl. eexists. split; [done|].
  assert (isInvalidated q = true) as Hi
    by (apply (Hinv (listKey params) q); [done|exact Hq]).
  unfold isStale. simpl. rewrite Hi, orb_true_r. simpl.
  unfold fetch. simpl. split; [by destruct (fetchStatus q)|].
  by destruct (fetchStatus q) eqn:Ef; simpl; rewrite ?Ef.
Qed.

End MutationFacts.

Section MutationClaims.
Import UseUsers UsersPage.

(** C10. The updater [onMutate] hands to [setQueriesData] returns its
    argument, and throws nothing, on every cached value without a users
    list: [old] null or undefined, [old.data] null or undefined, or
    [old.data.users] falsy, whatever the user id and the status. *)
Theorem optimistic_update_is_identity_without_users
    (userId newStatus : string) (old : JsValue) :
  truthy (optGet (optGet old "data") "users") = false →
  optimisticUpdate {| UseUsers.userId := userId; UseUsers.newStatus := newStatus |} old
  = Normal old.
Proof. apply optimisticUpdate_without_users. Qed.

Lemma optimistic_update_is_identity_without_users_witness :
  optimisticUpdate {| UseUsers.userId := "u1"; UseUsers.newStatus := "inactive" |} JNull
  = Normal JNull.
Proof.
  apply (optimistic_update_is_identity_without_users "u1" "inactive" JNull).
  reflexivity.
Defined.

(** C1. A status toggle on a cache of list responses leaves the mutation
    pending with, before the write settles: (1) no list query fetching any
    more, (2) the data of every list query captured in the context, which
    is the snapshot of the family, (3) in every list query the record
    whose id is [userId] carrying [newStatus], its other fields, the other
    records and the rest of the entry as they were; the same holds of
    every other entry filed under ['users'], and the entries outside the
    family are untouched; (4) the write handed to the api. *)
Theorem toggle_writes_optimistically
    (userId newStatus : string) (rt : Runtime) :
  wfCache (client rt) → typedCache (client rt) = true →
  let rt' := handleToggleStatus userId newStatus rt in
  mutation rt'
  = Pending {| UseUsers.userId := userId; UseUsers.newStatus := newStatus |}
      (familySnapshot (client rt))
  ∧ (client rt').*1 = (client rt).*1
  ∧ (∀ params q, find (listKey params) (client rt) = Some q →
       (listKey params, data q) ∈ familySnapshot (client rt)
       ∧ ∃ q', find (listKey params) (client rt') = Some q'
           ∧ fetchStatus q' = QueryClient.Idle
           ∧ entryRewritten userId newStatus (data q) (data q'))
  ∧ (∀ k q, find k (client rt) = Some q →
       ∃ q', find k (client rt') = Some q'
         ∧ if inFamily k
           then fetchStatus q' = QueryClient.Idle
                ∧ entryRewritten userId newStatus (data q) (data q')
           else q' = q)
  ∧ effects rt' = effects rt ++ [UpdateUserStatus userId newStatus].
Proof.
  intros Hwf Hty rt'. subst rt'. unfold handleToggleStatus.
  rewrite onMutate_typed by done. cbn [client mutation effects].
  set (v := {| UseUsers.userId := userId; UseUsers.newStatus := newStatus |}).
  assert (Hall : ∀ k q, find k (client rt) = Some q →
            ∃ q', find k (forEachMatching userQueryKeys.all
                            (written (optimisticUpdate v))
                            (cancelQueries userQueryKeys.all (client rt))) = Some q'
              ∧ if inFamily k
                then fetchStatus q' = QueryClient.Idle
                     ∧ entryRewritten userId newStatus (data q) (data q')
                else q' = q).
  { intros k q Hk. unfold cancelQueries. rewrite !find_forEachMatching, Hk.
    rewrite matchesKey_all. simpl. eexists; split; [done|].
    destruct (inFamily k) eqn:Ef; [|done].
    assert (Hs : responseShaped (data q) = true).
    { apply (typedCache_elem (client rt) k q); [done| |done]. by apply find_elem. }
    destruct (written_data v (cancel q) Hs) as [Hr Hf].
    by rewrite Hf. }
  split; [done|]. split; [|split; [|split; [exact Hall|done]]].
  - unfold cancelQueries. by rewrite !keys_forEachMatching.
  - intros params q Hk. split.
    + apply familySnapshot_elem; [by apply find_elem|done].
    + destruct (Hall _ _ Hk) as (q' & Hq' & Hf & Hr). rewrite Hq'. eauto.
Qed.

Lemma toggle_writes_optimistically_witness :
  let rt' := handleToggleStatus "u2" "inactive" Samples.runtime in
  mutation rt'
  = Pending {| UseUsers.userId := "u2"; UseUsers.newStatus := "inactive" |}
      (familySnapshot Samples.cache)
  ∧ (client rt').*1 = Samples.cache.*1
  ∧ (∀ params q, find (listKey params) Samples.cache = Some q →
       (listKey params, data q) ∈ familySnapshot Samples.cache
       ∧ ∃ q', find (listKey params) (client rt') = Some q'
           ∧ fetchStatus q' = QueryClient.Idle
           ∧ entryRewritten "u2" "inactive" (data q) (data q'))
  ∧ (∀ k q, find k Samples.cache = Some q →
       ∃ q', find k (client rt') = Some q'
         ∧ if inFamily k
           then fetchStatus q' = QueryClient.Idle
                ∧ entryRewritten "u2" "inactive" (data q) (data q')
           else q' = q)
  ∧ effects rt' = [UpdateUserStatus "u2" "inactive"].
Proof.
  apply (toggle_writes_optimistically "u2" "inactive" Samples.runtime).
  - unfold wfCache. apply (bool_decide_unpack _). vm_compute. exact I.
  - reflexivity.
Defined.

(** C2, as stated, fails.  The second page was still loading when the
    toggle was made, so the snapshot holds no data for it.  While the
    write is pending the view turns to that page, which is fetched, and
    its data arrives; the write then fails.  The entry is not put back to
    what was captured, it keeps the data that arrived; and the snapshot is
    not discarded, it stays in the state of the failed mutation. *)
Lemma failure_keeps_late_data_and_snapshot :
  let page1 := userQueryKeys.list (Samples.pageParams 1) in
  let page2 := userQueryKeys.list (Samples.pageParams 2) in
  let pending := handleToggleStatus "u2" "inactive" Samples.runtime in
  let viewing := observe false (Some page1) page2 (client pending) in
  let arrived :=
    {| client := store (hashKey page2)
                   (fetchSuccess (Samples.response [Samples.bob])) viewing;
       mutation := mutation pending;
       effects := effects pending |} in
  let rt' := settle Rejected arrived in
  data <$> find (hashKey page2) Samples.cache = Some JUndefined
  ∧ familySnapshot Samples.cache !! 1%nat = Some (hashKey page2, JUndefined)
  ∧ fetchStatus <$> find (hashKey page2) viewing = Some Fetching
  ∧ data <$> find (hashKey page2) (client rt')
    = Some (Samples.response [Samples.bob])
  ∧ mutation rt'
    = Error {| UseUsers.userId := "u2"; UseUsers.newStatus := "inactive" |}
        (Some (familySnapshot Samples.cache)).
Proof. repeat split; reflexivity. Qed.

(** C2, amended.  When the write of a toggle made on a cache of list
    responses fails, every entry of the cache holds the data it held when
    the toggle was made (the entries outside the family were never
    touched), the mutation is in its error state, which still holds the
    snapshot, and the error notification has been enqueued after the api
    call.  Whatever the cache has become by the time the failure arrives,
    an entry of the family that held data when the toggle was made holds
    exactly that data again, replaced and not merged; every other entry,
    one captured without data included, holds what the failure found in
    it. *)
Theorem failure_restores_captured_data
    (userId newStatus : string) (rt : Runtime) :
  wfCache (client rt) → typedCache (client rt) = true →
  let variables :=
    {| UseUsers.userId := userId; UseUsers.newStatus := newStatus |} in
  let pending := handleToggleStatus userId newStatus rt in
  let rt' := settle Rejected pending in
  (client rt').*1 = (client rt).*1
  ∧ (∀ k q, find k (client rt) = Some q →
       ∃ q', find k (client rt') = Some q'
         ∧ data q' = data q
         ∧ (inFamily k = false → q' = q))
  ∧ mutation rt' = Error variables (Some (familySnapshot (client rt)))
  ∧ effects rt'
    = effects rt ++ [UpdateUserStatus userId newStatus;
                     EnqueueSnackbar "Failed to update user status" "error"]
  ∧ (∀ c k,
       data <$> find k (client (settle Rejected
                                  {| client := c; mutation := mutation pending;
                                     effects := effects pending |}))
       = match find k (client rt) with
         | Some q =>
             if inFamily k && hasData q then Some (data q)
             else data <$> find k c
         | None => data <$> find k c
         end).
Proof.
  intros Hwf Hty variables pending rt'. subst pending rt'.
  unfold handleToggleStatus.
  rewrite onMutate_typed by done. unfold settle. cbn [client mutation effects].
  fold variables.
  set (c1 := forEachMatching _ (written _) _).
  assert (Hkeys : c1.*1 = (client rt).*1).
  { unfold c1, cancelQueries. by rewrite !keys_forEachMatching. }
  split; [|split; [|split; [done|split]]].
  - rewrite keys_onSettled.
    rewrite onError_keys; [done|]. rewrite Hkeys. apply familySnapshot_keys.
  - intros k q Hk. unfold onSettled. rewrite find_invalidateQueries.
    rewrite matchesKey_all.
    assert (Hc1 : find k c1
                  = Some (if inFamily k
                          then written (optimisticUpdate variables) (cancel q)
                          else q)).
    { unfold c1, cancelQueries. rewrite !find_forEachMatching, Hk.
      rewrite matchesKey_all. simpl. by destruct (inFamily k). }
    destruct (inFamily k) eqn:Ef.
    + pose proof (find_elem _ _ _ Hk) as Hin.
      rewrite (onError_at _ _ k (data q));
        [|by apply familySnapshot_NoDup|by apply familySnapshot_elem].
      rewrite Hc1.
      destruct (data q) eqn:Ed; simpl;
        try (eexists; split; [done|]; split;
             [by rewrite data_refetch|discriminate]).
      eexists; split; [done|]. split; [|discriminate].
      rewrite data_refetch. simpl.
      unfold written. simpl. rewrite Ed.
      rewrite optimisticUpdate_without_users by done. simpl. done.
    + rewrite onError_frame, Hc1; [by eexists|].
      intros Hin. apply list_elem_of_fmap in Hin as [[k' d] [-> Hin]].
      apply familySnapshot_inFamily in Hin. simpl in Ef. congruence.
  - by rewrite <-app_assoc.
  - intros c k. rewrite data_onSettled.
    destruct (find k (client rt)) as [q|] eqn:Hk.
    + destruct (inFamily k) eqn:Ef; cbn [andb].
      * rewrite (onError_at _ _ k (data q));
          [|by apply familySnapshot_NoDup
           |apply familySnapshot_elem; [by apply find_elem|done]].
        unfold hasData. by destruct (data q).
      * rewrite onError_frame; [done|].
        intros Hin. apply list_elem_of_fmap in Hin as [[k' d] [-> Hin]].
        apply familySnapshot_inFamily in Hin. simpl in Ef. congruence.
    + rewrite onError_frame; [done|].
      intros Hin. apply familySnapshot_keys in Hin.
      apply list_elem_of_fmap in Hin as [[k' q] [-> Hin]].
      apply elem_find in Hin; [|done]. simpl in Hk. congruence.
Qed.

Lemma failure_restores_captured_data_witness :
  let rt' := settle Rejected (handleToggleStatus "u2" "inactive" Samples.runtime) in
  (client rt').*1 = Samples.cache.*1
  ∧ (∀ k q, find k Samples.cache = Some q →
       ∃ q', find k (client rt') = Some q'
         ∧ data q' = data q
         ∧ (inFamily k = false → q' = q))
  ∧ mutation rt'
    = Error {| UseUsers.userId := "u2"; UseUsers.newStatus := "inactive" |}
        (Some (familySnapshot Samples.cache))
  ∧ effects rt'
    = [UpdateUserStatus "u2" "inactive";
       EnqueueSnackbar "Failed to update user status" "error"].
Proof.
  pose proof (failure_restores_captured_data "u2" "inactive" Samples.runtime) as H.
  destruct H as (H1 & H2 & H3 & H4 & _).
  - unfold wfCache. apply (bool_decide_unpack _). vm_compute. exact I.
  - reflexivity.
  - repeat split; assumption.
Defined.

(** C3. Every mutation ends with every list query of the cache marked
    invalidated, and so is every other entry filed under ['users']; no
    entry is lost; the list queries on screen are being fetched again at
    once, and each of the others is fetched by the next view that reads
    it.  This holds on an acknowledgement as on a failure, for a pending
    mutation that settles on whatever the cache has become, and for a
    toggle followed by its settlement (a toggle whose [onMutate] throws
    has failed before the api is called). *)
Theorem settled_mutation_invalidates_family :
  (∀ c variables context log outcome,
     let rt' := settle outcome
                  {| client := c; mutation := Pending variables context;
                     effects := log |} in
     isPending (mutation rt') = false
     ∧ c.*1 ⊆ (client rt').*1
     ∧ (∀ params q, find (listKey params) (client rt') = Some q →
          isInvalidated q = true
          ∧ (active q = true → fetchStatus q ≠ QueryClient.Idle))
     ∧ familyInvalidated (client rt')
     ∧ refetchedOnRead (client rt'))
  ∧ (∀ userId newStatus rt outcome,
       let rt' := settle outcome (handleToggleStatus userId newStatus rt) in
       isPending (mutation rt') = false
       ∧ (∀ k, is_Some (find k (client rt)) → is_Some (find k (client rt')))
       ∧ (∀ params q, find (listKey params) (client rt') = Some q →
            isInvalidated q = true
            ∧ (active q = true → fetchStatus q ≠ QueryClient.Idle))
       ∧ familyInvalidated (client rt')
       ∧ refetchedOnRead (client rt')).
Proof.
  assert (Hsettled : ∀ c,
            (∀ params q, find (listKey params) (onSettled c) = Some q →
               isInvalidated q = true
               ∧ (active q = true → fetchStatus q ≠ QueryClient.Idle))
            ∧ familyInvalidated (onSettled c)
            ∧ refetchedOnRead (onSettled c)).
  { intros c. split; [|split].
    - intros params q. by apply settled_onSettled.
    - apply familyInvalidated_onSettled.
    - apply refetchedOnRead_invalidated, familyInvalidated_onSettled. }
  split.
  - intros c variables context log outcome rt'. subst rt'. unfold settle.
    cbn [client mutation effects].
    destruct outcome; cbn [client mutation isPending];
      (split; [done|]); (split; [|apply Hsettled]).
    + by rewrite keys_onSettled.
    + rewrite keys_onSettled. apply keys_onError_subseteq.
  - intros userId newStatus rt outcome rt'. subst rt'.
    unfold handleToggleStatus.
    pose proof (is_Some_find_onMutate
                  {| UseUsers.userId := userId; UseUsers.newStatus := newStatus |}
                  (client rt)) as Hkeep.
    destruct (onMutate _ (client rt)) as [c [context|e]]; unfold settle;
      cbn [client mutation effects fst] in *.
    + destruct outcome; cbn [client mutation isPending];
        (split; [done|]); (split; [|apply Hsettled]);
        intros k Hk; apply is_Some_find_onSettled;
        [|apply is_Some_find_onError]; by apply Hkeep.
    + split; [done|]. split; [|apply Hsettled].
      intros k Hk. apply is_Some_find_onSettled. by apply Hkeep.
Qed.

End MutationClaims.

(** ** Numbers and their text *)

Section NumberFacts.

Lemma digitValue_pretty (d : N) :
  (d < 10)%N → digitValue 10 (pretty_N_char d) = Some d.
Proof.
  intros H.
  assert (d = 0 ∨ d = 1 ∨ d = 2 ∨ d = 3 ∨ d = 4 ∨ d = 5 ∨ d = 6 ∨ d = 7
          ∨ d = 8 ∨ d = 9)%N as Hd by lia.
  repeat destruct Hd as [->|Hd]; try reflexivity. by subst.
Qed.

(** Reading the digits [pretty_N_go] prepends shifts the accumulator and
    adds the number printed. *)
Lemma readDigits_pretty_go (x : N) (s : string) :
  ∃ m : N, ∀ acc : N,
    readDigits 10 (Some acc) (pretty_N_go x s)
    = readDigits 10 (Some (acc * m + x)%N) s.
Proof.
  revert s. induction (N.lt_wf_0 x) as [x _ IH]. intros s.
  destruct (decide (x = 0)%N) as [->|Hx].
  - exists 1%N. intros acc. rewrite pretty_N_go_0. do 2 f_equal. lia.
  - rewrite pretty_N_go_step by lia.
    destruct (IH (x `div` 10)%N) with (s := String (pretty_N_char (x `mod` 10)) s)
      as [m Hm].
    { apply N.div_lt; lia. }
    exists (m * 10)%N. intros acc. rewrite Hm. cbn [readDigits].
    rewrite digitValue_pretty by (apply N.mod_lt; lia).
    cbn [default from_option]. unfold id. do 2 f_equal.
    pose proof (N.div_mod x 10 ltac:(lia)). lia.
Qed.

(** A printed positive number starts with a digit that is not zero. *)
Lemma pretty_go_leading (x : N) (s : string) :
  (0 < x)%N →
  ∃ d rest, (0 < d < 10)%N ∧ pretty_N_go x s = String (pretty_N_char d) rest.
Proof.
  revert s. induction (N.lt_wf_0 x) as [x _ IH]. intros s Hx.
  rewrite pretty_N_go_step by done.
  destruct (decide (x < 10)%N) as [Hlt|Hge].
  - rewrite N.div_small, pretty_N_go_0 by done.
    exists x, s. rewrite N.mod_small by done. split; [lia|done].
  - apply IH.
    + apply N.div_lt; lia.
    + apply N.div_str_pos. lia.
Qed.

(** Evaluate [digitValue] on the literal characters of the goal. *)
Ltac eval_digit :=
  repeat match goal with
  | |- context [digitValue ?r ?c] =>
      let v := eval vm_compute in (digitValue r c) in
      change (digitValue r c) with v
  end.

Lemma parseInt_leading_digit (d : N) (rest : string) :
  (0 < d < 10)%N →
  parseInt (String (pretty_N_char d) rest)
  = match readDigits 10 (Some 0%N) (String (pretty_N_char d) rest) with
    | Some n => roundDouble (Z.of_N n)
    | None => NaN
    end.
Proof.
  intros H.
  assert (d = 1 ∨ d = 2 ∨ d = 3 ∨ d = 4 ∨ d = 5 ∨ d = 6 ∨ d = 7
          ∨ d = 8 ∨ d = 9)%N as Hd by lia.
  repeat destruct Hd as [->|Hd]; subst; unfold parseInt, skipWhiteSpace;
    cbn [String.length skipWhiteSpaceWithin];
    match goal with
    | |- context [dropWhiteSpace ?s] =>
        change (dropWhiteSpace s) with (@None string)
    end; cbn [pretty_N_char readDigits default from_option]; unfold id;
    eval_digit; cbv iota beta; rewrite ?N.mul_0_l;
    match goal with
    | |- context [readDigits ?r ?a rest] => destruct (readDigits r a rest)
    end; try done; by rewrite Z.mul_1_l.
Qed.

Lemma parseInt_minus_digit (d : N) (rest : string) :
  (0 < d < 10)%N →
  parseInt (String "-" (String (pretty_N_char d) rest))
  = match readDigits 10 (Some 0%N) (String (pretty_N_char d) rest) with
    | Some n => roundDouble (- Z.of_N n)
    | None => NaN
    end.
Proof.
  intros H.
  assert (d = 1 ∨ d = 2 ∨ d = 3 ∨ d = 4 ∨ d = 5 ∨ d = 6 ∨ d = 7
          ∨ d = 8 ∨ d = 9)%N as Hd by lia.
  repeat destruct Hd as [->|Hd]; subst; unfold parseInt, skipWhiteSpace;
    cbn [String.length skipWhiteSpaceWithin];
    match goal with
    | |- context [dropWhiteSpace ?s] =>
        change (dropWhiteSpace s) with (@None string)
    end; cbn [pretty_N_char readDigits default from_option]; unfold id;
    eval_digit; cbv iota beta; rewrite ?N.mul_0_l;
    match goal with
    | |- context [readDigits ?r ?a rest] => destruct (readDigits r a rest)
    end; try done; f_equal; lia.
Qed.

Lemma readDigits_pretty_pos (p : positive) :
  readDigits 10 (Some 0%N) (pretty_N_go (N.pos p) "") = Some (N.pos p).
Proof.
  destruct (readDigits_pretty_go (N.pos p) "") as [m Hm].
  rewrite Hm. cbn [readDigits]. f_equal.
Qed.

(** [parseInt] reads the decimal text of an integer as the double
    nearest to it. *)
Lemma parseInt_pretty (z : Z) : parseInt (pretty z) = roundDouble z.
Proof.
  destruct z as [|p|p]; [reflexivity| |].
  - change (pretty (Z.pos p)) with (pretty_N_go (N.pos p) "").
    destruct (pretty_go_leading (N.pos p) "") as (d & rest & Hd & Heq); [lia|].
    rewrite Heq, parseInt_leading_digit, <-Heq, readDigits_pretty_pos by done.
    done.
  - change (pretty (Z.neg p)) with ("-" +:+ pretty_N_go (N.pos p) "").
    destruct (pretty_go_leading (N.pos p) "") as (d & rest & Hd & Heq); [lia|].
    change ("-" +:+ pretty_N_go (N.pos p) "")
      with (String "-" (pretty_N_go (N.pos p) "")).
    rewrite Heq, parseInt_minus_digit, <-Heq, readDigits_pretty_pos by done.
    done.
Qed.

Lemma safe_cases (z : Z) :
  safe z → Z.abs z < 2 ^ 53 ∨ z = 2 ^ 53 ∨ z = - 2 ^ 53.
Proof. unfold safe. change (2 ^ 53) with 9007199254740992. lia. Qed.

(** Up to 2^53 every integer is a double. *)
Lemma roundDouble_safe (z : Z) : safe z → roundDouble z = Int z.
Proof.
  intros [H|[->| ->]]%safe_cases; [|by vm_compute..].
  unfold roundDouble.
  destruct (Z.ltb_spec (Z.abs z) (2 ^ 53)) as [_|Hge]; [done|lia].
Qed.

Lemma roundDouble_not_NaN (z : Z) : roundDouble z ≠ NaN.
Proof. unfold roundDouble. by repeat case_match. Qed.

Lemma pretty_Z_nonempty (z : Z) : pretty z ≠ "".
Proof.
  intros H. pose proof (parseInt_pretty z) as Hp. rewrite H in Hp.
  by eapply roundDouble_not_NaN.
Qed.

Lemma numToString_safe (z : Z) : safe z → numToString (Int z) = pretty z.
Proof.
  intros [H|[->| ->]]%safe_cases; [|by vm_compute..].
  unfold numToString.
  destruct (Z.ltb_spec (Z.abs z) (2 ^ 53)) as [_|Hge]; [done|lia].
Qed.

(** [parseInt(n.toString())] is [n], for [NaN] and for an integer up to
    2^53. *)
Lemma parseInt_numToString (n : number) :
  safeNumber n → parseInt (numToString n) = n.
Proof.
  destruct n as [|z|negative]; [done| |done]. intros H.
  by rewrite numToString_safe, parseInt_pretty, roundDouble_safe.
Qed.

Lemma append_nonempty (s t : string) : s ≠ "" → s +:+ t ≠ "".
Proof. by destruct s. Qed.

Lemma largeToString_nonempty (x : Z) : largeToString x ≠ "".
Proof.
  unfold largeToString.
  destruct (shortest x 17 1) as [[s n]|]; [|apply pretty_Z_nonempty].
  destruct (n <=? 21).
  - apply append_nonempty, pretty_Z_nonempty.
  - destruct (pretty s) as [|c [|c' rest]] eqn:Hs; [|done..].
    apply pretty_Z_nonempty.
Qed.

Lemma numToString_nonempty (n : number) : numToString n ≠ "".
Proof.
  destruct n as [|z|[]]; [done| |done..]. unfold numToString.
  destruct (Z.abs z <? 2 ^ 53); [apply pretty_Z_nonempty|].
  destruct (z <? 0); [done|]. apply largeToString_nonempty.
Qed.

(** Adding one and taking it away again gives the number back while
    neither goes beyond 2^53. *)
Lemma numSub_numAdd (z : Z) :
  safe z → safe (z + 1) → numSub (numAdd (Int z) (Int 1)) (Int 1) = Int z.
Proof.
  intros Hz Hz'. cbn [numAdd]. rewrite roundDouble_safe by done.
  cbn [numSub]. replace (z + 1 - 1) with z by lia. by apply roundDouble_safe.
Qed.

(** What the page reads of the page it wrote, for a page index from
    -2^53 to 2^53 - 1 or [NaN]: the page index. *)
Lemma decode_page_of_safe (n : number) :
  safePage n →
  numSub (parseInt (numToString (numAdd n (Int 1)))) (Int 1) = n.
Proof.
  destruct n as [|z|negative]; [done| |done]. intros [Hz Hz'].
  rewrite <-(numSub_numAdd z) at 2 by done.
  cbn [numAdd]. rewrite roundDouble_safe by done.
  by rewrite parseInt_numToString.
Qed.

End NumberFacts.

(** ** The view state and the URL *)

Section ViewFacts.
Import UsersPage.
Implicit Types (st : State).

Lemma encode_page st :
  encode st !! "page" = Some (numToString (numAdd (pageIndex (pagination st)) (Int 1))).
Proof.
  unfold encode.
  destruct (sorting st); repeat case_bool_decide; by simplify_map_eq.
Qed.

Lemma encode_status st :
  encode st !! "status"
  = if bool_decide (statusFilter st = "all") then None else Some (statusFilter st).
Proof.
  unfold encode.
  destruct (sorting st); repeat case_bool_decide; by simplify_map_eq.
Qed.

Lemma encode_search st :
  encode st !! "search"
  = if bool_decide (debouncedSearchQuery st = "") then None
    else Some (debouncedSearchQuery st).
Proof.
  unfold encode.
  destruct (sorting st); repeat case_bool_decide; by simplify_map_eq.
Qed.

Lemma encode_sort st : encode st !! "sort" = id <$> head (sorting st).
Proof.
  unfold encode.
  destruct (sorting st); repeat case_bool_decide; by simplify_map_eq.
Qed.

Lemma encode_order st :
  encode st !! "order"
  = (λ s, if desc s then "desc" else "asc") <$> head (sorting st).
Proof.
  unfold encode.
  destruct (sorting st); repeat case_bool_decide; by simplify_map_eq.
Qed.

(** [encode] reads the page index, the status filter, the stabilised search
    text and the first sort only. *)
Lemma encode_ext st st' :
  pageIndex (pagination st') = pageIndex (pagination st) →
  statusFilter st' = statusFilter st →
  debouncedSearchQuery st' = debouncedSearchQuery st →
  head (sorting st') = head (sorting st) →
  encode st' = encode st.
Proof.
  unfold encode. intros -> -> -> Hs.
  destruct (sorting st), (sorting st'); simpl in Hs; try done.
  by injection Hs as ->.
Qed.

Lemma getOr_nonempty (searchParams : gmap string string) k d :
  d ≠ "" → getOr searchParams k d ≠ "".
Proof.
  intros Hd. unfold getOr.
  destruct (searchParams !! k); [case_bool_decide|]; done.
Qed.

Lemma produced_encodable st : produced st → encodable st.
Proof.
  induction 1 as [searchParams vis|st e _ [IH1 IH2] He].
  - split; simpl.
    + by apply getOr_nonempty.
    + destruct (searchParams !! "sort") as [sortParam|]; [|constructor].
      case_bool_decide; repeat constructor. done.
  - destruct e as [| |value| | |]; simpl in *; split; simpl; try done.
    intros Hv. subst value.
    repeat (apply elem_of_cons in He as [He|He]; [done|]).
    by apply elem_of_nil in He.
Qed.

End ViewFacts.

Section ViewClaims.
Import UseUsers UsersPage.
Implicit Types (st : State).

(** C4, as stated, fails: the key of the read does not include the sort.
    The view of [?page=3] and the same view sorted by name read the same
    cache entry. *)
Lemma cache_key_ignores_sort :
  sorting Samples.viewSorted ≠ sorting Samples.view
  ∧ usersQueryKey Samples.viewSorted = usersQueryKey Samples.view.
Proof. split; [discriminate|reflexivity]. Qed.

(** C4, amended. The key of the read is made of the page requested (the
    page index plus one), the page size, the stabilised search text and
    the status filter, and of nothing else.  Two view states are filed
    under the same key exactly when they agree on these four as the hash
    of the key writes them, whatever their sort, their column visibility
    and the text still being typed.  So two view states equal in page
    index, page size, stabilised search text and status filter have the
    same key and read the same entry of any cache, and a view that goes
    from one to the other stays on its query: nothing changes in the
    cache, no fetch starts.  Conversely the key tells the page index, as
    long as page indexes are [NaN] or integers from -2^53 to 2^53 - 1. *)
Theorem cache_key_determined_by_four_fields st1 st2 :
  (usersQueryKey st1 = usersQueryKey st2
   ↔ hashNumber (numAdd (pageIndex (pagination st1)) (Int 1))
     = hashNumber (numAdd (pageIndex (pagination st2)) (Int 1))
     ∧ hashNumber (pageSize (pagination st1)) = hashNumber (pageSize (pagination st2))
     ∧ debouncedSearchQuery st1 = debouncedSearchQuery st2
     ∧ statusFilter st1 = statusFilter st2)
  ∧ (pageIndex (pagination st1) = pageIndex (pagination st2) →
     pageSize (pagination st1) = pageSize (pagination st2) →
     debouncedSearchQuery st1 = debouncedSearchQuery st2 →
     statusFilter st1 = statusFilter st2 →
     usersQueryKey st1 = usersQueryKey st2
     ∧ ∀ byTime c,
         find (usersQueryKey st2) c = find (usersQueryKey st1) c
         ∧ observe byTime (Some (userQueryKeys.list (usersParams st1)))
             (userQueryKeys.list (usersParams st2)) c = c)
  ∧ (safePage (pageIndex (pagination st1)) →
     safePage (pageIndex (pagination st2)) →
     usersQueryKey st1 = usersQueryKey st2 →
     pageIndex (pagination st1) = pageIndex (pagination st2)).
Proof.
  assert (Hiff : usersQueryKey st1 = usersQueryKey st2
            ↔ hashNumber (numAdd (pageIndex (pagination st1)) (Int 1))
              = hashNumber (numAdd (pageIndex (pagination st2)) (Int 1))
              ∧ hashNumber (pageSize (pagination st1))
                = hashNumber (pageSize (pagination st2))
              ∧ debouncedSearchQuery st1 = debouncedSearchQuery st2
              ∧ statusFilter st1 = statusFilter st2).
  { unfold usersQueryKey, userQueryKeys.list, usersParams, hashKey.
    cbn [fmap list_fmap hashPart]. unfold hashParams.
    cbn [page QueryClient.pageSize query status].
    split.
    - by intros [= Hp Hs Hq Hf].
    - by intros (-> & -> & -> & ->). }
  split; [exact Hiff|]. split.
  - intros Hp Hs Hq Hf.
    assert (Hkey : usersQueryKey st1 = usersQueryKey st2).
    { apply Hiff. by rewrite Hp, Hs, Hq, Hf. }
    split; [done|]. intros byTime c. split; [by rewrite Hkey|].
    unfold observe. rewrite bool_decide_eq_true_2; [done|].
    change (Some (usersQueryKey st1) = Some (usersQueryKey st2)).
    by rewrite Hkey.
  - intros H1 H2 [Hp _]%Hiff.
    destruct (pageIndex (pagination st1)) as [|z1|], (pageIndex (pagination st2)) as [|z2|];
      try done; cbn [safePage numAdd] in *.
    + destruct H2 as [_ H2]. by rewrite roundDouble_safe in Hp.
    + destruct H1 as [_ H1]. by rewrite roundDouble_safe in Hp.
    + destruct H1 as [_ H1], H2 as [_ H2].
      rewrite !roundDouble_safe in Hp by done. injection Hp as Hp. f_equal. lia.
Qed.

Lemma cache_key_determined_by_four_fields_witness :
  usersQueryKey Samples.viewSorted = usersQueryKey Samples.view
  ∧ ∀ byTime c,
      find (usersQueryKey Samples.view) c = find (usersQueryKey Samples.viewSorted) c
      ∧ observe byTime (Some (userQueryKeys.list (usersParams Samples.viewSorted)))
          (userQueryKeys.list (usersParams Samples.view)) c = c.
Proof.
  apply (proj1 (proj2 (cache_key_determined_by_four_fields
                         Samples.viewSorted Samples.view)));
    reflexivity.
Defined.

(** C5, as stated, fails: a page opened on [?page=1000000000000000000000]
    is in a state the page can be in, and writes its page to the URL in
    exponent notation, [page=1e+21]; read again, that is page 1, and the
    URL written next says [page=1].  The round trip already fails where
    page numbers are still written in full: opened on
    [?page=9007199254740994], the page has the index 2^53, writes
    [page=9007199254740992] and is read back with the index 2^53 - 1. *)
Lemma url_round_trip_fails_on_large_pages :
  let st := decode {[ "page" := "1000000000000000000000" ]} ∅ in
  let st' := decode (encode st) ∅ in
  let large := decode {[ "page" := "9007199254740994" ]} ∅ in
  let large' := decode (encode large) ∅ in
  produced st
  ∧ pageIndex (pagination st) = Int 1000000000000000000000
  ∧ encode st !! "page" = Some "1e+21"
  ∧ pageIndex (pagination st') = Int 0
  ∧ encode st' !! "page" = Some "1"
  ∧ produced large
  ∧ pageIndex (pagination large) = Int 9007199254740992
  ∧ encode large !! "page" = Some "9007199254740992"
  ∧ pageIndex (pagination large') = Int 9007199254740991.
Proof.
  split; [apply produced_mount|].
  split; [by vm_compute|].
  assert (H : encode (decode {[ "page" := "1000000000000000000000" ]} ∅) !! "page"
              = Some "1e+21").
  { rewrite encode_page. by vm_compute. }
  split; [exact H|].
  assert (H' : pageIndex (pagination
                 (decode (encode (decode {[ "page" := "1000000000000000000000" ]} ∅)) ∅))
               = Int 0).
  { unfold decode at 1. cbn [pagination pageIndex]. rewrite H. by vm_compute. }
  split; [exact H'|].
  split; [rewrite encode_page; cbv zeta in H'; by rewrite H'|].
  split; [apply produced_mount|].
  split; [by vm_compute|].
  assert (L : encode (decode {[ "page" := "9007199254740994" ]} ∅) !! "page"
              = Some "9007199254740992").
  { rewrite encode_page. by vm_compute. }
  split; [exact L|].
  unfold decode at 1. cbn [pagination pageIndex]. rewrite L. by vm_compute.
Qed.

(** C5, amended. For every view state the page can be in whose page index
    is [NaN] or an integer from -2^53 to 2^53 - 1, the state decoded from
    its encoding has the same page index, status
    filter and search text (the stabilised one, which is what is encoded)
    and the same first sort (the only one encoded), and encodes to the
    same parameters. *)
Theorem url_round_trip_below_2_53 st (storedVisibility : gmap string bool) :
  produced st → safePage (pageIndex (pagination st)) →
  let st' := decode (encode st) storedVisibility in
  pageIndex (pagination st') = pageIndex (pagination st)
  ∧ statusFilter st' = statusFilter st
  ∧ searchQuery st' = debouncedSearchQuery st
  ∧ debouncedSearchQuery st' = debouncedSearchQuery st
  ∧ sorting st' = take 1 (sorting st)
  ∧ encode st' = encode st.
Proof.
  intros [Hstatus Hsort]%produced_encodable Hsafe st'.
  assert (Hp : pageIndex (pagination st') = pageIndex (pagination st)).
  { subst st'. unfold decode. cbn [pagination pageIndex]. rewrite encode_page.
    rewrite bool_decide_eq_false_2 by apply numToString_nonempty.
    by apply decode_page_of_safe. }
  assert (Hf : statusFilter st' = statusFilter st).
  { subst st'. unfold decode, getOr. cbn [statusFilter]. rewrite encode_status.
    case_bool_decide; [done|]. by rewrite bool_decide_eq_false_2. }
  assert (Hq : searchQuery st' = debouncedSearchQuery st).
  { subst st'. unfold decode, getOr. cbn [searchQuery]. rewrite encode_search.
    case_bool_decide; [done|]. by rewrite bool_decide_eq_false_2. }
  assert (Hs : sorting st' = take 1 (sorting st)).
  { subst st'. unfold decode. cbn [sorting]. rewrite encode_sort, encode_order.
    destruct (sorting st) as [|[sortId sortDesc] rest]; [done|]. simpl.
    apply Forall_cons in Hsort as [Hid _]. simpl in Hid.
    rewrite bool_decide_eq_false_2 by done.
    destruct sortDesc; simpl; by rewrite ?bool_decide_eq_true_2, ?bool_decide_eq_false_2. }
  assert (Hd : debouncedSearchQuery st' = debouncedSearchQuery st).
  { rewrite <-Hq. by subst st'. }
  repeat split; try done.
  apply encode_ext; try done.
  rewrite Hs. by destruct (sorting st).
Qed.

Lemma url_round_trip_below_2_53_witness :
  let st' := decode (encode Samples.viewFiltered) ∅ in
  pageIndex (pagination st') = Int 1
  ∧ statusFilter st' = "active"
  ∧ searchQuery st' = "ada"
  ∧ debouncedSearchQuery st' = "ada"
  ∧ sorting st' = [{| id := "name"; desc := true |}]
  ∧ encode st' = encode Samples.viewFiltered.
Proof.
  apply (url_round_trip_below_2_53 Samples.viewFiltered ∅).
  - unfold Samples.viewFiltered, Samples.view, run. cbn [foldl].
    repeat (apply produced_step; [|simpl; try done]).
    + apply produced_mount.
    + apply list_elem_of_In. simpl. tauto.
    + repeat constructor. done.
  - split; by vm_compute.
Defined.

(** C6, as stated, fails for the settlement of the search text: the page
    index is reset when the text is typed, not when it settles.  On
    [?page=3], typing "a" and moving to the second page before the text
    settles leaves the settlement on page index 1, and the next read is
    made for page 2 of the new text. *)
Lemma settlement_keeps_page_index :
  let before :=
    run Samples.view
      [SearchChange "a";
       PaginationChange {| pageIndex := Int 1; UsersPage.pageSize := Int 10 |}] in
  let after := step before (DebounceSettle "a") in
  pageIndex (pagination before) = Int 1
  ∧ debouncedSearchQuery before = ""
  ∧ debouncedSearchQuery after = "a"
  ∧ pageIndex (pagination after) = Int 1
  ∧ usersParams after
    = {| page := Int 2; QueryClient.pageSize := Int 10; query := "a"; status := "all" |}.
Proof. repeat split. Qed.

(** No event but a pagination change moves the page index away from 0. *)
Lemma run_keeps_first_page st (events : list Event) :
  pageIndex (pagination st) = Int 0 →
  Forall (λ e, ∀ p, e ≠ PaginationChange p) events →
  pageIndex (pagination (run st events)) = Int 0.
Proof.
  unfold run. revert st.
  induction events as [|e events IH]; intros st H0 Hev; simpl; [done|].
  apply Forall_cons in Hev as [He Hev]. apply IH; [|done].
  destruct e; simpl; try done. by destruct (He newPagination).
Qed.

(** C6, amended. Every change of the status filter and every change of the
    search input sets the page index to 0, whatever it was, so that a text
    typed and then settled with no pagination change in between is read
    from the first page; a change of sort and a change of column visibility
    leave the pagination as it is. *)
Theorem filter_changes_reset_page st :
  (∀ value, pageIndex (pagination (step st (StatusFilterChange value))) = Int 0
            ∧ statusFilter (step st (StatusFilterChange value)) = value)
  ∧ (∀ value, pageIndex (pagination (step st (SearchChange value))) = Int 0
              ∧ searchQuery (step st (SearchChange value)) = value)
  ∧ (∀ newSorting, pagination (step st (SortingChange newSorting)) = pagination st)
  ∧ (∀ visibility,
       pagination (step st (ColumnVisibilityChange visibility)) = pagination st)
  ∧ (∀ value (events : list Event),
       Forall (λ e, ∀ p, e ≠ PaginationChange p) events →
       let st' := run st (SearchChange value :: events ++ [DebounceSettle value]) in
       page (usersParams st') = Int 1 ∧ query (usersParams st') = value).
Proof.
  do 4 (split; [done|]).
  intros value events Hev st'. subst st'. split.
  - unfold usersParams. cbn [page].
    change (run st (SearchChange value :: events ++ [DebounceSettle value]))
      with (run (step st (SearchChange value)) (events ++ [DebounceSettle value])).
    rewrite run_keeps_first_page; [done|done|].
    rewrite Forall_app. split; [done|]. by repeat constructor.
  - unfold run. simpl. by rewrite foldl_app.
Qed.

Lemma filter_changes_reset_page_witness :
  let st' := run Samples.viewFiltered
               [SearchChange "bob"; SortingChange []; DebounceSettle "bob"] in
  page (usersParams st') = Int 1 ∧ query (usersParams st') = "bob".
Proof.
  apply (proj2 (proj2 (proj2 (proj2
           (filter_changes_reset_page Samples.viewFiltered))))
         "bob" [SortingChange []]).
  repeat constructor. discriminate.
Defined.

End ViewClaims.

(** ** Cells and rows *)

Lemma mapM_pure {A B} (g : A → B) (l : list A) :
  mapM (λ x, Normal (g x)) l = Normal (g <$> l).
Proof. apply mapM_Normal. induction l; by constructor. Qed.

Section GridClaims.
Import DynamicGrid.
Variable formatDate : JsValue → option string → Completion string.

(** C7. A chiplist cell holding a sequence of groups renders one outlined
    tag per group, in the order of the sequence, keyed by the group's id
    and labelled with its name; an empty sequence, undefined and null
    render the "No groups" indicator; and whatever the value, the renderer
    never returns a text for a chiplist cell, so the value is never
    stringified. *)
Theorem chiplist_renders_tags (columnMeta : ColumnMetadata) (groups : list Group) :
  type columnMeta = "chiplist" →
  renderCellByType formatDate (JArr (groupValue <$> groups)) columnMeta
  = Normal (match groups with
            | [] => Span "#999" "No groups"
            | _ :: _ =>
                Box ((λ g, Chip (Some (JStr (groupId g))) (JStr (groupName g))
                             None (Some "outlined")) <$> groups)
            end)
  ∧ renderCellByType formatDate JUndefined columnMeta = Normal (Span "#999" "No groups")
  ∧ renderCellByType formatDate JNull columnMeta = Normal (Span "#999" "No groups")
  ∧ ∀ value node,
      renderCellByType formatDate value columnMeta = Normal node →
      ∀ text, node ≠ Text text.
Proof.
  intros Hty. unfold renderCellByType. rewrite Hty. simpl.
  split; [|split; [done|split; [done|]]].
  - destruct groups as [|g groups]; [done|].
    cbn [fmap list_fmap length Z.of_nat].
    rewrite (mapM_Normal _ _
      ((λ g, Chip (Some (JStr (groupId g))) (JStr (groupName g)) None (Some "outlined"))
         <$> (g :: groups))); [done|].
    change (groupValue g :: (groupValue <$> groups))
      with (groupValue <$> (g :: groups)).
    generalize (g :: groups). intros l. induction l as [|[??] l IH]; by constructor.
  - intros value node H text ->.
    destruct (negb (truthy value)); simpl in H; [discriminate|].
    destruct (getProp value "length") as [len|]; simpl in H; [|discriminate].
    destruct (strictEqZero len); [discriminate|].
    destruct (arrayMap _ value); simpl in H; discriminate.
Qed.

End GridClaims.

Lemma chiplist_renders_tags_witness :
  DynamicGrid.renderCellByType (λ _ _, Throw TypeError) Samples.groups
    Samples.groupsColumn
  = Normal (DynamicGrid.Box
              [DynamicGrid.Chip (Some (JStr "g1")) (JStr "Engineering") None
                 (Some "outlined");
               DynamicGrid.Chip (Some (JStr "g2")) (JStr "Sales") None
                 (Some "outlined")]).
Proof.
  apply (proj1 (chiplist_renders_tags (λ _ _, Throw TypeError) Samples.groupsColumn
                  [ {| DynamicGrid.groupId := "g1"; DynamicGrid.groupName := "Engineering" |};
                    {| DynamicGrid.groupId := "g2"; DynamicGrid.groupName := "Sales" |} ]
                  eq_refl)).
Defined.

Section RowClaims.
Import UseUsers UsersPage UserActions.

(** C8, as stated, fails: the flag is the one [isPending] of the hook,
    handed to every row.  While the toggle of Bob (u2) is pending, the row
    of Ada (u1) shows the progress indicator as well. *)
Lemma pending_toggle_disables_every_row :
  let rt := handleToggleStatus "u2" "inactive" Samples.runtime in
  mutation rt
  = Pending {| userId := "u2"; newStatus := "inactive" |} (familySnapshot Samples.cache)
  ∧ match rows rt (decode ∅ ∅) with
    | Normal rs =>
        (λ r, (optGet (user (actions r)) "userId", render (actions r))) <$> rs
    | Throw _ => []
    end
    = [(JStr "u1", Normal CircularProgress); (JStr "u2", Normal CircularProgress)].
Proof. split; reflexivity. Qed.

(** C8, amended. Every row is given the same flag, the [isPending] of the
    one status mutation of the page: while a write is pending every row
    shows the progress indicator in place of its control, whichever record
    is being written, and while none is pending every row of a user shows
    its control. *)
Theorem rows_share_pending_flag (rt : Runtime) (st : State) (rs : list Row) :
  rows rt st = Normal rs →
  Forall (λ r,
      isUpdating (actions r) = isPending (mutation rt)
      ∧ (isPending (mutation rt) = true → render (actions r) = Normal CircularProgress)
      ∧ (isPending (mutation rt) = false → nullish (user (actions r)) = false →
         ∃ rendered, render (actions r) = Normal rendered ∧ hasControl rendered = true))
    rs.
Proof.
  unfold rows, usersWithActions.
  set (users := if truthy _ then _ else _).
  destruct users as [| | | | |elems|]; try discriminate.
  unfold arrayMap. rewrite mapM_pure. intros [= <-].
  apply Forall_fmap, Forall_forall. intros u _. simpl.
  split; [done|]. unfold render; simpl. split.
  - by intros ->.
  - intros -> Hu. rewrite !getProp_optGet by done. simpl. eauto.
Qed.

Lemma rows_share_pending_flag_witness :
  Forall (λ r,
      isUpdating (actions r) = false
      ∧ (false = true → render (actions r) = Normal CircularProgress)
      ∧ (false = false → nullish (user (actions r)) = false →
         ∃ rendered, render (actions r) = Normal rendered ∧ hasControl rendered = true))
    [ {| fields := ownProps Samples.ada;
         actions := {| user := Samples.ada; isUpdating := false |} |};
      {| fields := ownProps Samples.bob;
         actions := {| user := Samples.bob; isUpdating := false |} |} ].
Proof.
  apply (rows_share_pending_flag Samples.runtime (decode ∅ ∅)).
  reflexivity.
Defined.

End RowClaims.

Section StorageClaims.
Import UseLocalStorage UsersPage.
Variable JSON_parse : string → Completion (gmap string bool).

(** C9. When the settings store cannot be read, or holds text that does
    not parse, the column visibility is the default, the empty mapping,
    under which every column is visible; the hook returns normally, the
    page mounts with that visibility, and the failure is one warning on the
    console. *)
Theorem storage_failure_falls_back
    (storage : Storage) (searchParams : gmap string string) :
  (∃ e, storage "users-table-column-visibility" = Throw e)
  ∨ (∃ text e, storage "users-table-column-visibility" = Normal (Some text)
               ∧ text ≠ "" ∧ JSON_parse text = Throw e) →
  let result := initialColumnVisibility JSON_parse storage in
  result.1 = ∅
  ∧ (∀ columnId, DynamicGrid.isVisible result.1 columnId = true)
  ∧ (∃ message e, result.2 = [Warn message e])
  ∧ columnVisibility (decode searchParams result.1) = ∅.
Proof.
  intros H result.
  assert (Hr : ∃ message e, result = (∅, [Warn message e])).
  { subst result. unfold initialColumnVisibility, initialValue.
    destruct H as [[e ->]|(text & e & -> & Htext & ->)]; [by eauto|].
    rewrite bool_decide_eq_false_2 by done. by eauto. }
  destruct Hr as (message & e & ->). simpl. repeat split; by eauto.
Qed.

End StorageClaims.

Lemma storage_failure_falls_back_witness :
  let result := UsersPage.initialColumnVisibility Samples.parseEmptyObject
                  Samples.corruptStorage in
  result.1 = ∅
  ∧ (∀ columnId, DynamicGrid.isVisible result.1 columnId = true)
  ∧ (∃ message e, result.2 = [UseLocalStorage.Warn message e])
  ∧ UsersPage.columnVisibility (UsersPage.decode ∅ result.1) = ∅.
Proof.
  apply (storage_failure_falls_back Samples.parseEmptyObject Samples.corruptStorage ∅).
  right. exists "{oops", SyntaxError. repeat split. discriminate.
Defined.

(** ** Worked examples *)

Section Examples.
Import UseUsers UsersPage.

(** The statuses a cached value shows, record by record. *)
Let statuses (v : JsValue) : list JsValue :=
  match usersOf v with
  | JArr users => (λ u, optGet u "status") <$> users
  | _ => []
  end.

Let firstPage (rt : Runtime) : JsValue :=
  default JUndefined (data <$> find (usersQueryKey (decode ∅ ∅)) (client rt)).

(** Right after the toggle the cached page shows Bob inactive; after a
    failure it shows him active again; after an acknowledgement the
    optimistic value stays until the refetch. *)
Example toggle_then_read :
  let pending := handleToggleStatus "u2" "inactive" Samples.runtime in
  statuses (firstPage pending) = [JStr "active"; JStr "inactive"]
  ∧ statuses (firstPage (settle Rejected pending)) = [JStr "active"; JStr "active"]
  ∧ statuses (firstPage (settle (Resolved "User updated") pending))
    = [JStr "active"; JStr "inactive"].
Proof. repeat split. Qed.

(** A cached value whose users are not an array makes the updater throw:
    the toggle fails before the api is called, and the family is
    invalidated all the same. *)
Example toggle_on_malformed_cache :
  let c := [(userQueryKeys.list (Samples.pageParams 1),
             {| data := JObj [("data", JObj [("users", JStr "none")])];
                fetchStatus := QueryClient.Idle; isInvalidated := false;
                active := true |})] in
  handleToggleStatus "u2" "inactive"
    {| client := c; mutation := UsersPage.Idle; effects := [] |}
  = {| client := invalidateQueries userQueryKeys.all c;
       mutation := Error {| UseUsers.userId := "u2"; UseUsers.newStatus := "inactive" |}
                     None;
       effects := [EnqueueSnackbar "Failed to update user status" "error"] |}.
Proof. reflexivity. Qed.

(** After the settlement the page on screen is fetching again, and the
    page that was loaded ahead is fetched when the view turns to it. *)
Example settle_then_read :
  let settled := settle (Resolved "User updated")
                   (handleToggleStatus "u2" "inactive" Samples.runtime) in
  let page1 := userQueryKeys.list (Samples.pageParams 1) in
  let page2 := userQueryKeys.list (Samples.pageParams 2) in
  fetchStatus <$> find (listKey (Samples.pageParams 1)) (client settled) = Some Fetching
  ∧ fetchStatus <$> find (listKey (Samples.pageParams 2)) (client settled)
    = Some QueryClient.Idle
  ∧ fetchStatus <$> find (listKey (Samples.pageParams 2))
                      (observe false (Some page1) page2 (client settled))
    = Some Fetching.
Proof. repeat split. Qed.

Example parseInt_samples :
  parseInt "3" = Int 3 ∧ parseInt "  -12px" = Int (-12) ∧ parseInt "0x1F" = Int 31
  ∧ parseInt "abc" = NaN ∧ parseInt "" = NaN
  ∧ parseInt "1e+21" = Int 1 ∧ parseInt "Infinity" = NaN
  ∧ parseInt "9007199254740993" = Int 9007199254740992
  ∧ parseInt (String (ascii_of_N 194) (String (ascii_of_N 160) "3")) = Int 3
  ∧ parseInt (String (ascii_of_N 239) (String (ascii_of_N 187)
                (String (ascii_of_N 191) "42"))) = Int 42.
Proof. repeat split; by vm_compute. Qed.

(** The text of numbers: decimal up to 21 digits with the digits a double
    does not hold written as zeros, exponent notation beyond. *)
Example numToString_samples :
  numToString (Int 42) = "42"
  ∧ numToString (roundDouble (2 ^ 60)) = "1152921504606847000"
  ∧ numToString (roundDouble (10 ^ 21)) = "1e+21"
  ∧ numToString (roundDouble (2 ^ 70)) = "1.1805916207174113e+21"
  ∧ numToString (roundDouble (10 ^ 400)) = "Infinity".
Proof. repeat split; by vm_compute. Qed.

(** From 2^53 on neighbouring page indexes ask for the same page and
    share a cache entry, and so do a page that is no number and one that
    is too large to be one. *)
Example large_pages_share_a_key :
  let at_ (pageIndex : number) :=
    handlePaginationChange {| pageIndex := pageIndex; UsersPage.pageSize := Int 10 |}
      Samples.view in
  usersQueryKey (at_ (Int (2 ^ 53 - 1))) = usersQueryKey (at_ (Int (2 ^ 53)))
  ∧ usersQueryKey (decode {[ "page" := "abc" ]} ∅)
    = usersQueryKey
        (decode {[ "page" := String "1" (Z.iter 400 (String "0") "") ]} ∅).
Proof. split; by vm_compute. Qed.

(** The URL of the filtered sample view. *)
Example encode_sample :
  encode Samples.viewFiltered
  = {[ "page" := "2"; "status" := "active"; "search" := "ada";
       "sort" := "name"; "order" := "desc" ]}.
Proof. by apply (bool_decide_unpack _); vm_compute. Qed.

(** A hand-written URL with a page that is no number mounts on [NaN] and
    is rewritten to [page=NaN]. *)
Example decode_bad_page :
  let st := decode {[ "page" := "abc" ]} ∅ in
  pageIndex (pagination st) = NaN ∧ encode st !! "page" = Some "NaN".
Proof. split; reflexivity. Qed.

(** What [String(value)] would show for the groups of the spec's example,
    and what the chiplist renderer shows for a user without groups. *)
Example groups_stringified :
  toString Samples.groups = "[object Object],[object Object]".
Proof. reflexivity. Qed.

Example no_groups :
  DynamicGrid.renderCellByType (λ _ _, Throw TypeError) (JArr []) Samples.groupsColumn
  = Normal (DynamicGrid.Span "#999" "No groups").
Proof. reflexivity. Qed.

End Examples.

(* ===================================================================== *)
(** * Further properties *)
(* ===================================================================== *)

(** ** Optimistic writes compose *)

Section UpdateAlgebra.
Import UseUsers.
Implicit Types (v : Variables) (old u : JsValue) (props : list (string * JsValue)).

Lemma setProp_setProp k (a b : JsValue) props :
  setProp k b (setProp k a props) = setProp k b props.
Proof.
  induction props as [|[k' x] props IH]; simpl.
  - by rewrite bool_decide_eq_true_2.
  - destruct (bool_decide (k' = k)) eqn:E; simpl.
    + by rewrite bool_decide_eq_true_2.
    + by rewrite E, IH.
Qed.

Lemma updatedRecord_not_nullish v u : nullish u = false → nullish (updatedRecord v u) = false.
Proof. unfold updatedRecord. by destruct (strictEqStr _ _). Qed.

(** The walk over the users: it throws on the first hole, and otherwise
    returns every record updated. *)
Lemma mapM_update v (users : list JsValue) :
  mapM (λ user,
          id ← getProp user "userId";
          if strictEqStr id (userId v)
          then Normal (JObj (setProp "status" (JStr (newStatus v)) (ownProps user)))
          else Normal user) users
  = if forallb (λ u, negb (nullish u)) users
    then Normal (updatedRecord v <$> users) else Throw TypeError.
Proof.
  induction users as [|u users IH]; [done|].
  cbn [mapM forallb fmap list_fmap]. rewrite IH. clear IH.
  destruct (nullish u) eqn:Eu.
  - by destruct u.
  - rewrite getProp_optGet by done. cbn [mbind Completion_bind negb andb].
    unfold updatedRecord.
    destruct (strictEqStr _ _); cbn [mbind Completion_bind];
      by destruct (forallb _ users).
Qed.

(** A value with users is an object whose [data] is an object. *)
Lemma usersOf_truthy old :
  truthy (usersOf old) = true →
  nullish old = false ∧ nullish (optGet old "data") = false.
Proof.
  unfold usersOf. intros H. split.
  - by destruct old.
  - destruct (optGet old "data"); try done.
Qed.

(** The updater in closed form. *)
Lemma optimisticUpdate_closed v old :
  optimisticUpdate v old
  = if negb (truthy (usersOf old)) then Normal old
    else match usersOf old with
         | JArr users =>
             if forallb (λ u, negb (nullish u)) users
             then Normal (withUsers old (updatedRecord v <$> users))
             else Throw TypeError
         | _ => Throw TypeError
         end.
Proof.
  unfold optimisticUpdate. fold (usersOf old).
  destruct (truthy (usersOf old)) eqn:Et; [|done]. cbn [negb].
  destruct (usersOf_truthy old Et) as [Ho Hd].
  rewrite getProp_optGet by done. cbn [mbind Completion_bind].
  rewrite getProp_optGet by done. cbn [mbind Completion_bind].
  fold (usersOf old). unfold arrayMap.
  destruct (usersOf old) as [| | | | |users|]; try done.
  rewrite mapM_update. by destruct (forallb _ users).
Qed.

Lemma usersOf_withUsers old (users : list JsValue) :
  usersOf (withUsers old users) = JArr users.
Proof.
  unfold usersOf, withUsers, optGet; simpl.
  rewrite lookupProp_setProp_eq; simpl. by rewrite lookupProp_setProp_eq.
Qed.

Lemma withUsers_withUsers old (a b : list JsValue) :
  withUsers (withUsers old a) b = withUsers old b.
Proof.
  unfold withUsers at 1 2. unfold optGet at 1. simpl.
  rewrite lookupProp_setProp_eq. simpl. by rewrite !setProp_setProp.
Qed.

(** Two writes in a row are one walk with both updates. *)
Lemma optimisticUpdate_then v1 v2 old :
  optimisticUpdate v1 old ≫= optimisticUpdate v2
  = if negb (truthy (usersOf old)) then Normal old
    else match usersOf old with
         | JArr users =>
             if forallb (λ u, negb (nullish u)) users
             then Normal (withUsers old
                            ((λ u, updatedRecord v2 (updatedRecord v1 u)) <$> users))
             else Throw TypeError
         | _ => Throw TypeError
         end.
Proof.
  rewrite (optimisticUpdate_closed v1).
  destruct (truthy (usersOf old)) eqn:Et; cbn [negb mbind Completion_bind].
  - destruct (usersOf old) as [| | | | |users|] eqn:Eu; try done.
    destruct (forallb _ users) eqn:Ea; [|done]. cbn [mbind Completion_bind].
    rewrite optimisticUpdate_closed, usersOf_withUsers. cbn [truthy negb].
    rewrite withUsers_withUsers, <-list_fmap_compose.
    replace (forallb _ (updatedRecord v1 <$> users)) with true; [done|].
    symmetry. apply forallb_forall. intros u' Hin.
    apply list_elem_of_In, list_elem_of_fmap in Hin as (u & -> & Hin).
    rewrite forallb_forall in Ea. apply list_elem_of_In, Ea in Hin.
    apply negb_true_iff. apply updatedRecord_not_nullish. by apply negb_true_iff.
  - rewrite optimisticUpdate_closed. by rewrite Et.
Qed.

Lemma userId_after_update v u :
  strictEqStr (optGet u "userId") (userId v) = true →
  ∃ props, u = JObj props
    ∧ updatedRecord v u = JObj (setProp "status" (JStr (newStatus v)) props)
    ∧ optGet (updatedRecord v u) "userId" = optGet u "userId".
Proof.
  intros H. unfold updatedRecord. rewrite H.
  destruct u; unfold optGet in H; simpl in H; try done;
    try (case_bool_decide; done).
  exists props. repeat split. unfold optGet; simpl.
  by rewrite lookupProp_setProp_ne.
Qed.

End UpdateAlgebra.

Section UpdateAlgebraExtras.
Import UseUsers.
Implicit Types (v : Variables) (old u : JsValue).

(** X1. Two optimistic writes to the same record in a row leave exactly
    what the second alone would leave, on every cached value, including
    the exception when the value is malformed; in particular writing the
    same status twice is writing it once. *)
Theorem later_write_to_same_record_wins v1 v2 old :
  userId v1 = userId v2 →
  optimisticUpdate v1 old ≫= optimisticUpdate v2 = optimisticUpdate v2 old.
Proof.
  intros Hid. rewrite optimisticUpdate_then, optimisticUpdate_closed.
  destruct (truthy (usersOf old)); cbn [negb]; [|done].
  destruct (usersOf old) as [| | | | |users|]; try done.
  destruct (forallb _ users); [|done]. do 2 f_equal.
  apply list_fmap_ext. intros _ u _.
  destruct (strictEqStr (optGet u "userId") (userId v1)) eqn:E.
  - destruct (userId_after_update v1 u E) as (props & -> & -> & Hu).
    unfold updatedRecord. rewrite <-Hid. unfold optGet in *; simpl in *.
    rewrite lookupProp_setProp_ne by done. rewrite E.
    by rewrite setProp_setProp.
  - unfold updatedRecord at 2. by rewrite E.
Qed.

Lemma later_write_to_same_record_wins_witness :
  optimisticUpdate {| userId := "u2"; newStatus := "inactive" |}
    (Samples.response [Samples.ada; Samples.bob])
  ≫= optimisticUpdate {| userId := "u2"; newStatus := "active" |}
  = optimisticUpdate {| userId := "u2"; newStatus := "active" |}
      (Samples.response [Samples.ada; Samples.bob]).
Proof.
  apply (later_write_to_same_record_wins
           {| userId := "u2"; newStatus := "inactive" |}
           {| userId := "u2"; newStatus := "active" |}).
  reflexivity.
Defined.

(** X2. Optimistic writes to two different records commute: in either
    order they leave the same cached value (or throw the same exception on
    a malformed one). *)
Theorem writes_to_distinct_records_commute v1 v2 old :
  userId v1 ≠ userId v2 →
  optimisticUpdate v1 old ≫= optimisticUpdate v2
  = optimisticUpdate v2 old ≫= optimisticUpdate v1.
Proof.
  intros Hid. rewrite !optimisticUpdate_then.
  destruct (truthy (usersOf old)); cbn [negb]; [|done].
  destruct (usersOf old) as [| | | | |users|]; try done.
  destruct (forallb _ users); [|done]. do 2 f_equal.
  apply list_fmap_ext. intros _ u _.
  destruct (strictEqStr (optGet u "userId") (userId v1)) eqn:E1;
    destruct (strictEqStr (optGet u "userId") (userId v2)) eqn:E2.
  - exfalso. destruct (optGet u "userId"); try done. simpl in *.
    apply bool_decide_eq_true_1 in E1, E2. congruence.
  - destruct (userId_after_update v1 u E1) as (props & -> & Hu1 & Hid1).
    unfold updatedRecord at 1. rewrite Hid1, E2.
    unfold updatedRecord at 3. by rewrite E2.
  - destruct (userId_after_update v2 u E2) as (props & -> & Hu2 & Hid2).
    unfold updatedRecord at 2. rewrite E1.
    unfold updatedRecord at 2. by rewrite Hid2, E1.
  - unfold updatedRecord at 2 4. rewrite E1, E2.
    unfold updatedRecord. by rewrite E1, E2.
Qed.

Lemma writes_to_distinct_records_commute_witness :
  optimisticUpdate {| userId := "u1"; newStatus := "inactive" |}
    (Samples.response [Samples.ada; Samples.bob])
  ≫= optimisticUpdate {| userId := "u2"; newStatus := "inactive" |}
  = optimisticUpdate {| userId := "u2"; newStatus := "inactive" |}
      (Samples.response [Samples.ada; Samples.bob])
    ≫= optimisticUpdate {| userId := "u1"; newStatus := "inactive" |}.
Proof.
  apply (writes_to_distinct_records_commute
           {| userId := "u1"; newStatus := "inactive" |}
           {| userId := "u2"; newStatus := "inactive" |}).
  discriminate.
Defined.

End UpdateAlgebraExtras.

(** ** What the mutation keeps, on any cache *)

Section LifecycleFacts.
Import UseUsers UsersPage.
Implicit Types (c : QueryCache) (k : QueryKey) (q : Query) (rt : Runtime).

(** A write under one key leaves the queries under the other keys alone. *)
Lemma find_setQueryDataWith_ne k updater c k' :
  k ≠ k' → find k' (setQueryDataWith k updater c).1 = find k' c.
Proof.
  intros Hne. unfold setQueryDataWith.
  destruct (updater _) as [[]|]; simpl; try done;
    by rewrite find_store, bool_decide_eq_false_2.
Qed.

Lemma find_setEach_frame updater keys c k' :
  k' ∉ keys → find k' (setEach updater keys c).1 = find k' c.
Proof.
  revert c. induction keys as [|k keys IH]; intros c H; simpl; [done|].
  apply not_elem_of_cons in H as [Hne H].
  pose proof (find_setQueryDataWith_ne k updater c k' ltac:(congruence)) as Hf.
  destruct (setQueryDataWith k updater c) as [c' [e|]]; simpl in *; [done|].
  by rewrite IH.
Qed.

Lemma findAll_inFamily c k :
  k ∈ (findAll userQueryKeys.all c).*1 → inFamily k = true.
Proof.
  rewrite findAll_all. intros H.
  apply list_elem_of_fmap in H as [[k0 q0] [-> Hin]].
  by apply list_elem_of_In, filter_In in Hin as [_ Hin].
Qed.

Lemma getQueriesData_inFamily c k :
  k ∈ (getQueriesData userQueryKeys.all c).*1 → inFamily k = true.
Proof.
  unfold getQueriesData. rewrite <-list_fmap_compose. apply findAll_inFamily.
Qed.

(** [onMutate] leaves the queries outside the family as they are, whether
    it returns or throws. *)
Lemma onMutate_frame v c k :
  inFamily k = false → find k (onMutate v c).1 = find k c.
Proof.
  intros Hk. unfold onMutate, setQueriesData.
  pose proof (find_setEach_frame (optimisticUpdate v)
                (findAll userQueryKeys.all (cancelQueries userQueryKeys.all c)).*1
                (cancelQueries userQueryKeys.all c) k) as Hf.
  destruct (setEach _ _ _) as [c' [e|]]; simpl in *;
    (rewrite Hf; [|intros Hin; apply findAll_inFamily in Hin; congruence]);
    unfold cancelQueries; rewrite find_forEachMatching; rewrite matchesKey_all;
    rewrite Hk; by destruct (find k c).
Qed.

Lemma onMutate_context v c context :
  (onMutate v c).2 = Normal context →
  context = getQueriesData userQueryKeys.all (cancelQueries userQueryKeys.all c).
Proof.
  unfold onMutate. destruct (setQueriesData _ _ _) as [c' [e|]]; simpl; congruence.
Qed.

Lemma onSettled_frame c k :
  inFamily k = false → find k (onSettled c) = find k c.
Proof.
  intros Hk. unfold onSettled.
  rewrite find_invalidateQueries, matchesKey_all, Hk.
  by destruct (find k c).
Qed.

End LifecycleFacts.

Section LifecycleExtras.
Import UseUsers UsersPage.
Implicit Types (c : QueryCache) (k : QueryKey) (q : Query) (rt : Runtime).

(** X4. A toggle and its settlement never change a query outside the
    family of [['users']]: its data, its fetch and its invalidation flag
    are what they were, whatever the cache holds (a malformed entry
    included) and however the write ends. *)
Theorem mutation_leaves_other_queries_alone
    (userId newStatus : string) (outcome : Outcome) rt k :
  inFamily k = false →
  find k (client (handleToggleStatus userId newStatus rt)) = find k (client rt)
  ∧ find k (client (settle outcome (handleToggleStatus userId newStatus rt)))
    = find k (client rt).
Proof.
  intros Hk. unfold handleToggleStatus.
  set (v := {| UseUsers.userId := userId; UseUsers.newStatus := newStatus |}).
  pose proof (onMutate_frame v (client rt) k Hk) as Hf.
  pose proof (onMutate_context v (client rt)) as Hc.
  destruct (onMutate v (client rt)) as [c [context|e]]; simpl in *.
  - split; [done|]. unfold settle; cbn [mutation client].
    destruct outcome; cbn [client]; rewrite onSettled_frame by done; [done|].
    rewrite onError_frame; [done|].
    rewrite (Hc context eq_refl). intros Hin.
    apply getQueriesData_inFamily in Hin. congruence.
  - rewrite onSettled_frame by done. by split.
Qed.

Lemma mutation_leaves_other_queries_alone_witness :
  find [KStr "settings"]
    (client (settle Rejected (handleToggleStatus "u2" "inactive" Samples.runtime)))
  = find [KStr "settings"] Samples.cache.
Proof.
  apply (mutation_leaves_other_queries_alone "u2" "inactive" Rejected
           Samples.runtime [KStr "settings"]).
  reflexivity.
Defined.

(** X5. When the write of a toggle made on a cache of list responses is
    acknowledged, every entry of the family keeps the optimistic value (the
    snapshot is not written back) and is marked invalidated; it is being
    fetched again if a mounted view observes it, and is idle if none does.
    The mutation has succeeded, its state still holding the snapshot, and
    the snackbar shows the message of the response after the api call. *)
Theorem success_keeps_optimistic_value
    (userId newStatus message : string) rt :
  wfCache (client rt) → typedCache (client rt) = true →
  let pending := handleToggleStatus userId newStatus rt in
  let rt' := settle (Resolved message) pending in
  (∀ k q, inFamily k = true → find k (client rt) = Some q →
     ∃ q', find k (client rt') = Some q'
       ∧ (data <$> find k (client pending)) = Some (data q')
       ∧ entryRewritten userId newStatus (data q) (data q')
       ∧ isInvalidated q' = true
       ∧ active q' = active q
       ∧ fetchStatus q' = if active q then Fetching else QueryClient.Idle)
  ∧ mutation rt'
    = Success {| UseUsers.userId := userId; UseUsers.newStatus := newStatus |}
        (familySnapshot (client rt))
  ∧ effects rt'
    = effects rt ++ [UpdateUserStatus userId newStatus;
                     EnqueueSnackbar message "success"].
Proof.
  intros Hwf Hty pending rt'. subst pending rt'. unfold handleToggleStatus.
  rewrite onMutate_typed by done. unfold settle. cbn [client mutation effects].
  split; [|split; [done|by rewrite <-app_assoc]].
  intros k q Hf Hk. unfold onSettled, cancelQueries.
  rewrite find_invalidateQueries, !find_forEachMatching, Hk.
  rewrite matchesKey_all, Hf. cbn [fmap option_fmap option_map].
  set (v := {| UseUsers.userId := userId; UseUsers.newStatus := newStatus |}).
  assert (Hs : responseShaped (data q) = true).
  { apply (typedCache_elem (client rt) k q); [done| |done]. by apply find_elem. }
  destruct (written_data v (cancel q) Hs) as [Hr Hfs].
  assert (Ha : active (written (optimisticUpdate v) (cancel q)) = active q).
  { unfold written. by repeat case_match. }
  eexists. split; [done|].
  rewrite data_refetch, isInvalidated_refetch, active_refetch.
  rewrite fetchStatus_refetch by done.
  cbn [data isInvalidated active invalidate]. by rewrite Ha.
Qed.

Lemma success_keeps_optimistic_value_witness :
  let pending := handleToggleStatus "u2" "inactive" Samples.runtime in
  let rt' := settle (Resolved "User updated") pending in
  (∀ k q, inFamily k = true → find k Samples.cache = Some q →
     ∃ q', find k (client rt') = Some q'
       ∧ (data <$> find k (client pending)) = Some (data q')
       ∧ entryRewritten "u2" "inactive" (data q) (data q')
       ∧ isInvalidated q' = true
       ∧ active q' = active q
       ∧ fetchStatus q' = if active q then Fetching else QueryClient.Idle)
  ∧ mutation rt'
    = Success {| UseUsers.userId := "u2"; UseUsers.newStatus := "inactive" |}
        (familySnapshot Samples.cache)
  ∧ effects rt'
    = [UpdateUserStatus "u2" "inactive"; EnqueueSnackbar "User updated" "success"].
Proof.
  apply (success_keeps_optimistic_value "u2" "inactive" "User updated" Samples.runtime).
  - unfold wfCache. apply (bool_decide_unpack _). vm_compute. exact I.
  - reflexivity.
Defined.

End LifecycleExtras.

(** ** The page and the mutation *)

Section PageMutationFacts.
Import UseUsers UsersPage.
Implicit Types (c : QueryCache) (k : QueryKey) (q : Query) (rt : Runtime).


Lemma usersQueryKey_inFamily (st : State) : inFamily (usersQueryKey st) = true.
Proof. reflexivity. Qed.

End PageMutationFacts.

Section PageMutationExtras.
Import UseUsers UsersPage.
Implicit Types (c : QueryCache) (k : QueryKey) (q : Query) (rt : Runtime).

(** X6. Whatever the view state, the query the page reads is one of the
    family the mutation works on: if it is cached when a status is toggled,
    it is still cached and marked invalidated once the toggle has settled,
    however the write ends and whatever the cache holds. *)
Theorem page_query_is_invalidated_after_toggle
    (st : State) (userId newStatus : string) (outcome : Outcome) rt :
  is_Some (find (usersQueryKey st) (client rt)) →
  ∃ q', find (usersQueryKey st)
          (client (settle outcome (handleToggleStatus userId newStatus rt))) = Some q'
        ∧ isInvalidated q' = true.
Proof.
  intros H. unfold handleToggleStatus.
  set (v := {| UseUsers.userId := userId; UseUsers.newStatus := newStatus |}).
  pose proof (is_Some_find_onMutate v (client rt) _ H) as H1.
  assert (Hinv : ∀ c, is_Some (find (usersQueryKey st) c) →
                 ∃ q', find (usersQueryKey st) (onSettled c) = Some q'
                       ∧ isInvalidated q' = true).
  { intros c [q Hq]. unfold onSettled.
    rewrite find_invalidateQueries, Hq, matchesKey_all, usersQueryKey_inFamily.
    eexists. split; [done|]. by rewrite isInvalidated_refetch. }
  destruct (onMutate v (client rt)) as [c [context|e]]; simpl in H1.
  - unfold settle; cbn [mutation client].
    destruct outcome; cbn [client]; apply Hinv; [done|].
    by apply is_Some_find_onError.
  - cbn [settle mutation client]. by apply Hinv.
Qed.

Lemma page_query_is_invalidated_after_toggle_witness :
  ∃ q', find (usersQueryKey (decode ∅ ∅))
          (client (settle (Resolved "User updated")
                     (handleToggleStatus "u2" "inactive" Samples.runtime))) = Some q'
        ∧ isInvalidated q' = true.
Proof.
  apply (page_query_is_invalidated_after_toggle (decode ∅ ∅) "u2" "inactive"
           (Resolved "User updated") Samples.runtime).
  by eexists.
Defined.

(** X7. Right after a toggle on a cache of list responses, the rows of the
    page are those of the users it showed, in the same order, with the
    toggled user carrying the new status and every other user unchanged;
    each row is given the pending flag. *)
Theorem rows_show_optimistic_status
    (st : State) (userId newStatus : string) rt q (users : list JsValue) :
  wfCache (client rt) → typedCache (client rt) = true →
  find (usersQueryKey st) (client rt) = Some q →
  usersOf (data q) = JArr users →
  ∃ users',
    Forall2 (recordRewritten userId newStatus) users users'
    ∧ rows (handleToggleStatus userId newStatus rt) st
      = Normal ((λ u, {| fields := ownProps u;
                         actions := {| UserActions.user := u;
                                       UserActions.isUpdating := true |} |})
                  <$> users').
Proof.
  intros Hwf Hty Hq Hu. unfold rows, handleToggleStatus.
  rewrite onMutate_typed by done. cbn [client mutation isPending].
  unfold cancelQueries. rewrite !find_forEachMatching, Hq.
  rewrite matchesKey_all, usersQueryKey_inFamily.
  cbn [fmap option_fmap option_map default].
  set (v := {| UseUsers.userId := userId; UseUsers.newStatus := newStatus |}).
  assert (Hs : responseShaped (data q) = true).
  { apply (typedCache_elem (client rt) (usersQueryKey st) q); [done| |done].
    by apply find_elem. }
  destruct (written_data v (cancel q) Hs) as [Hr _].
  unfold entryRewritten in Hr. cbn [data cancel] in Hr. rewrite Hu in Hr.
  destruct Hr as (users' & Hu' & Hf & _).
  exists users'. split; [done|].
  unfold usersWithActions. unfold usersOf in Hu'. unfold Datatypes.id. rewrite Hu'.
  cbn [truthy arrayMap]. apply mapM_pure.
Qed.

Lemma rows_show_optimistic_status_witness :
  ∃ users',
    Forall2 (recordRewritten "u2" "inactive") [Samples.ada; Samples.bob] users'
    ∧ rows (handleToggleStatus "u2" "inactive" Samples.runtime) (decode ∅ ∅)
      = Normal ((λ u, {| fields := ownProps u;
                         actions := {| UserActions.user := u;
                                       UserActions.isUpdating := true |} |})
                  <$> users').
Proof.
  eapply (rows_show_optimistic_status (decode ∅ ∅) "u2" "inactive" Samples.runtime).
  - unfold wfCache. apply (bool_decide_unpack _). vm_compute. exact I.
  - reflexivity.
  - reflexivity.
  - reflexivity.
Defined.

End PageMutationExtras.

(** ** The URL the page writes and reads *)

Section UrlExtras.
Import UsersPage.
Implicit Types (st : State).

Lemma numAdd_numSub (z : Z) :
  safe z → safe (z - 1) → numAdd (numSub (Int z) (Int 1)) (Int 1) = Int z.
Proof.
  intros Hz Hz'. cbn [numSub]. rewrite roundDouble_safe by done.
  cbn [numAdd]. replace (z - 1 + 1) with z by lia. by apply roundDouble_safe.
Qed.

Lemma encode_other st k :
  k ∉ ["page"; "status"; "search"; "sort"; "order"] → encode st !! k = None.
Proof.
  intros Hk.
  assert (k ≠ "page" ∧ k ≠ "status" ∧ k ≠ "search" ∧ k ≠ "sort" ∧ k ≠ "order")
    as (? & ? & ? & ? & ?).
  { repeat split; intros ->; apply Hk; apply list_elem_of_In; simpl; tauto. }
  unfold encode.
  destruct (sorting st); repeat case_bool_decide; by simplify_map_eq.
Qed.

(** X8. The parameters the page writes to the URL use the five recognised
    keys only and describe the read it makes: [page] is always there and is
    the page requested, [status] is there unless the filter is "all",
    [search] unless the stabilised text is empty, and [sort] and [order]
    come together or not at all, [order] being "asc" or "desc". *)
Theorem url_describes_the_read st :
  (∀ k, is_Some (encode st !! k) → k ∈ ["page"; "status"; "search"; "sort"; "order"])
  ∧ encode st !! "page" = Some (numToString (page (usersParams st)))
  ∧ default "all" (encode st !! "status") = status (usersParams st)
  ∧ default "" (encode st !! "search") = query (usersParams st)
  ∧ (encode st !! "sort" = None ↔ encode st !! "order" = None)
  ∧ (∀ v, encode st !! "order" = Some v → v = "asc" ∨ v = "desc").
Proof.
  split; [|split; [|split; [|split; [|split]]]].
  - intros k Hk. destruct (decide (k ∈ ["page"; "status"; "search"; "sort"; "order"]))
      as [|Hn]; [done|].
    rewrite encode_other in Hk by done. by destruct Hk.
  - apply encode_page.
  - rewrite encode_status. unfold usersParams; simpl. by case_bool_decide.
  - rewrite encode_search. unfold usersParams; simpl. by case_bool_decide.
  - rewrite encode_sort, encode_order. by destruct (sorting st).
  - intros v. rewrite encode_order. destruct (sorting st) as [|[i []] rest]; simpl;
      [done|intros [= <-]; by right|intros [= <-]; by left].
Qed.

(** X9. In every view state the page can be in, no parameter written to
    the URL has an empty value, so every one of them is read back as
    present at the next mount. *)
Theorem url_values_are_never_empty st k v :
  produced st → encode st !! k = Some v → v ≠ "".
Proof.
  intros [Hstatus Hsort]%produced_encodable Hk.
  assert (Hin : k ∈ ["page"; "status"; "search"; "sort"; "order"]).
  { destruct (decide (k ∈ ["page"; "status"; "search"; "sort"; "order"]))
      as [|Hn]; [done|]. by rewrite encode_other in Hk. }
  repeat (apply elem_of_cons in Hin as [->|Hin]).
  - rewrite encode_page in Hk. injection Hk as <-. apply numToString_nonempty.
  - rewrite encode_status in Hk. case_bool_decide; [done|]. by injection Hk as <-.
  - rewrite encode_search in Hk. case_bool_decide; [done|]. by injection Hk as <-.
  - rewrite encode_sort in Hk. destruct (sorting st) as [|s rest]; [done|].
    apply Forall_cons in Hsort as [Hs _]. by injection Hk as <-.
  - rewrite encode_order in Hk. destruct (sorting st) as [|[i []] rest]; [done| |];
      by injection Hk as <-.
  - by apply elem_of_nil in Hin.
Qed.

Lemma url_values_are_never_empty_witness :
  encode Samples.viewFiltered !! "search" = Some "ada" ∧ "ada" ≠ "".
Proof.
  split; [reflexivity|].
  apply (url_values_are_never_empty Samples.viewFiltered "search" "ada");
    [|reflexivity].
  unfold Samples.viewFiltered, Samples.view, run. cbn [foldl].
  repeat (apply produced_step; [|simpl; try done]).
  - apply produced_mount.
  - apply list_elem_of_In. simpl. tauto.
  - repeat constructor. done.
Defined.

(** X10. The page the view mounts on is whatever [parseInt] makes of the
    URL's [page] value, unchecked.  When that is an integer from
    -2^53 + 1 to 2^53, it is requested as such from the server and written
    back as such to the URL, zero and negative pages included; a value
    that is no number is requested as [NaN] and written back as "NaN". *)
Theorem mounted_page_is_unvalidated
    (searchParams : gmap string string) (storedVisibility : gmap string bool)
    (s : string) :
  searchParams !! "page" = Some s → s ≠ "" →
  let st := decode searchParams storedVisibility in
  pageIndex (pagination st) = numSub (parseInt s) (Int 1)
  ∧ (∀ z, parseInt s = Int z → safe z → safe (z - 1) →
       page (usersParams st) = Int z
       ∧ pageIndex (pagination st) = Int (z - 1)
       ∧ encode st !! "page" = Some (pretty z))
  ∧ (parseInt s = NaN →
       page (usersParams st) = NaN ∧ encode st !! "page" = Some "NaN").
Proof.
  intros Hs Hne st.
  assert (Hp : pageIndex (pagination st) = numSub (parseInt s) (Int 1)).
  { subst st. unfold decode. cbn [pagination pageIndex]. rewrite Hs.
    by rewrite bool_decide_eq_false_2. }
  split; [done|]. split.
  - intros z Hz Hsafe Hsafe'.
    assert (Hpage : page (usersParams st) = Int z).
    { unfold usersParams. cbn [page]. by rewrite Hp, Hz, numAdd_numSub. }
    split; [done|]. split.
    + rewrite Hp, Hz. cbn [numSub]. by apply roundDouble_safe.
    + rewrite encode_page. unfold usersParams in Hpage. cbn [page] in Hpage.
      by rewrite Hpage, numToString_safe.
  - intros Hn. split.
    + unfold usersParams. cbn [page]. by rewrite Hp, Hn.
    + by rewrite encode_page, Hp, Hn.
Qed.

Lemma mounted_page_is_unvalidated_witness :
  let st := decode {[ "page" := "-2" ]} ∅ in
  page (usersParams st) = Int (-2)
  ∧ pageIndex (pagination st) = Int (-3)
  ∧ encode st !! "page" = Some "-2".
Proof.
  destruct (mounted_page_is_unvalidated {[ "page" := "-2" ]} ∅ "-2")
    as (_ & H & _); [reflexivity|discriminate|].
  apply (H (-2)); [reflexivity|by vm_compute..].
Defined.

Lemma run_snoc st (events : list Event) (e : Event) :
  run st (events ++ [e]) = step (run st events) e.
Proof. unfold run. by rewrite foldl_app. Qed.

(** X11. A burst of keystrokes, however long, changes neither the search
    text of the read nor the one of the URL, nor the status filter, the
    sort or the page size: until the text settles it only moves the view
    to its first page and shows the last text typed in the input. *)
Theorem keystrokes_do_not_reach_the_read st (values : list string) :
  let st' := run st (SearchChange <$> values) in
  query (usersParams st') = query (usersParams st)
  ∧ status (usersParams st') = status (usersParams st)
  ∧ QueryClient.pageSize (usersParams st') = QueryClient.pageSize (usersParams st)
  ∧ encode st' !! "search" = encode st !! "search"
  ∧ sorting st' = sorting st
  ∧ (∀ value, last values = Some value →
       searchQuery st' = value ∧ page (usersParams st') = Int 1).
Proof.
  induction values as [|value values IH] using rev_ind.
  - simpl. by repeat split.
  - rewrite fmap_app. cbn [fmap list_fmap]. rewrite run_snoc.
    destruct IH as (Hq & Hs & Hp & He & Hso & _).
    set (st1 := run st (SearchChange <$> values)) in *.
    repeat split; try done.
    + by rewrite !encode_search in *.
    + rewrite last_snoc in H. by injection H as <-.
Qed.

End UrlExtras.

(** ** The settings store *)

Section StorageExtras.
Import UseLocalStorage.
Context {T : Type}.
Variable JSON_parse : string → Completion T.
Variable JSON_stringify : T → Completion string.

(** X12. [setValue] always returns with the new value as the stored state;
    the store then holds the serialised value under the key and every other
    item as before, with nothing logged, or, when the store is denied, the
    value cannot be serialised or the write fails, the store is what it was
    and one warning is logged. *)
Theorem setValue_always_keeps_the_value (ls : LocalStorage) (key : string) (value : T) :
  let result := setValue JSON_stringify ls key value in
  result.1.1 = value
  ∧ ((∃ text, JSON_stringify value = Normal text
              ∧ items result.1.2 !! key = Some text
              ∧ (∀ key', key' ≠ key → items result.1.2 !! key' = items ls !! key')
              ∧ result.2 = [])
     ∨ (result.1.2 = ls ∧ ∃ message e, result.2 = [Warn message e])).
Proof.
  unfold setValue, setItem.
  destruct (denied ls) as [e|]; [by split; [|right; eauto]|].
  destruct (JSON_stringify value) as [text|e]; [|by split; [|right; eauto]].
  destruct (full ls) as [e|]; [by split; [|right; eauto]|].
  split; [done|]. left. exists text. simpl. repeat split.
  - by rewrite lookup_insert_eq.
  - intros key' Hne. by rewrite lookup_insert_ne.
Qed.

(** X13. A value written with [setValue] to a store in working order is the
    value the hook starts with at the next mount, with nothing logged,
    provided it serialises to a text that is not empty and parses back to
    itself; what the hook starts with under any other key is unchanged. *)
Theorem stored_value_survives_reload
    (ls : LocalStorage) (key : string) (value defaultValue : T) (text : string) :
  denied ls = None → full ls = None →
  JSON_stringify value = Normal text → text ≠ "" → JSON_parse text = Normal value →
  let ls' := (setValue JSON_stringify ls key value).1.2 in
  initialValue JSON_parse (getItem ls') key defaultValue = (value, [])
  ∧ ∀ key', key' ≠ key →
      initialValue JSON_parse (getItem ls') key' defaultValue
      = initialValue JSON_parse (getItem ls) key' defaultValue.
Proof.
  intros Hd Hf Hs Ht Hp. unfold setValue, setItem. rewrite Hd, Hs, Hf. simpl.
  unfold initialValue, getItem. simpl. rewrite Hd. split.
  - rewrite lookup_insert_eq. by rewrite bool_decide_eq_false_2, Hp.
  - intros key' Hne. by rewrite lookup_insert_ne.
Qed.

End StorageExtras.

Lemma stored_value_survives_reload_witness :
  UseLocalStorage.initialValue Samples.parseEmptyObject
    (UseLocalStorage.getItem
       (UseLocalStorage.setValue Samples.stringifyEmptyObject Samples.emptyStorage
          "users-table-column-visibility" ∅).1.2)
    "users-table-column-visibility" {[ "email" := false ]}
  = (∅, []).
Proof.
  apply (stored_value_survives_reload Samples.parseEmptyObject
           Samples.stringifyEmptyObject Samples.emptyStorage
           "users-table-column-visibility" ∅ {[ "email" := false ]} "{}");
    done.
Defined.

(** ** The actions of a row *)

Section ActionsExtras.
Import UserActions.

(** The status the toggle of [user] asks for. *)
Let opposite (user : JsValue) : string :=
  if strictEqStr (optGet user "status") "active" then "inactive" else "active".

Lemma act_invariant (props : Props) (dialogOpen : bool) (a : Action) :
  nullish (user props) = false →
  (dialogOpen = true → strictEqStr (optGet (user props) "status") "active" = true) →
  ∃ dialogOpen' calls,
    act props dialogOpen a = Normal (dialogOpen', calls)
    ∧ (dialogOpen' = true → strictEqStr (optGet (user props) "status") "active" = true)
    ∧ Forall (λ c, calledUserId c = optGet (user props) "userId"
                   ∧ calledStatus c = opposite (user props)) calls
    ∧ (a ≠ ConfirmDeactivate →
       strictEqStr (optGet (user props) "status") "active" = true → calls = []).
Proof.
  intros Hu Hinv. unfold act, opposite.
  destruct (isUpdating props); [by eexists _, _|].
  destruct a.
  - unfold handleToggle. rewrite !getProp_optGet by done. simpl.
    destruct (strictEqStr _ "active") eqn:E; simpl.
    + by eexists _, _.
    + eexists _, _. repeat split; [done|by repeat constructor|done].
  - destruct dialogOpen; [|by eexists _, _].
    unfold handleConfirmDeactivate. rewrite getProp_optGet by done. simpl.
    eexists _, _. repeat split; [done| |done].
    repeat constructor. simpl. by rewrite Hinv.
  - destruct dialogOpen; by eexists _, _.
Qed.

(** X14. Whatever the user does with the actions of a row that stays the
    same, starting with the dialog closed, no handler throws and every call
    of [onToggleStatus] carries the id of the row's user and the opposite
    of the status shown; for an active user nothing is called unless the
    deactivation is confirmed. *)
Theorem toggle_asks_for_the_opposite_status (props : Props) (actions : list Action) :
  nullish (user props) = false →
  ∃ dialogOpen calls,
    interact props false actions = Normal (dialogOpen, calls)
    ∧ Forall (λ c, calledUserId c = optGet (user props) "userId"
                   ∧ calledStatus c
                     = if strictEqStr (optGet (user props) "status") "active"
                       then "inactive" else "active") calls
    ∧ (ConfirmDeactivate ∉ actions →
       strictEqStr (optGet (user props) "status") "active" = true → calls = []).
Proof.
  intros Hu.
  assert (H : ∀ dialogOpen,
    (dialogOpen = true → strictEqStr (optGet (user props) "status") "active" = true) →
    ∃ dialogOpen' calls,
      interact props dialogOpen actions = Normal (dialogOpen', calls)
      ∧ Forall (λ c, calledUserId c = optGet (user props) "userId"
                     ∧ calledStatus c = opposite (user props)) calls
      ∧ (ConfirmDeactivate ∉ actions →
         strictEqStr (optGet (user props) "status") "active" = true → calls = [])).
  { induction actions as [|a actions IH]; intros dialogOpen Hinv.
    - exists dialogOpen, []. by repeat split.
    - destruct (act_invariant props dialogOpen a Hu Hinv)
        as (open1 & calls1 & Ha & Hinv1 & Hc1 & Hn1).
      destruct (IH open1 Hinv1) as (open2 & calls2 & Hi & Hc2 & Hn2).
      exists open2, (calls1 ++ calls2). cbn [interact]. rewrite Ha. simpl.
      rewrite Hi. simpl. repeat split; [by apply Forall_app|].
      intros Hnot Hact. apply not_elem_of_cons in Hnot as [Hne Hnot].
      rewrite Hn1, Hn2 by done. done. }
  apply H. discriminate.
Qed.

Lemma toggle_asks_for_the_opposite_status_witness :
  ∃ dialogOpen calls,
    interact {| user := Samples.ada; isUpdating := false |} false
      [ClickToggle; CancelDeactivate; ClickToggle; ConfirmDeactivate]
    = Normal (dialogOpen, calls)
    ∧ Forall (λ c, calledUserId c = JStr "u1" ∧ calledStatus c = "inactive") calls
    ∧ (ConfirmDeactivate ∉ [ClickToggle; CancelDeactivate; ClickToggle; ConfirmDeactivate] →
       true = true → calls = []).
Proof.
  apply (toggle_asks_for_the_opposite_status
           {| user := Samples.ada; isUpdating := false |}
           [ClickToggle; CancelDeactivate; ClickToggle; ConfirmDeactivate]).
  reflexivity.
Defined.

End ActionsExtras.

(** ** Cells, rows and the grid *)

Section GridExtras.
Import DynamicGrid.
Variable formatDate : JsValue → option string → Completion string.

(** The tag of one group. *)
Let chipOf (group : JsValue) : ReactNode :=
  Chip (Some (optGet group "groupId")) (optGet group "groupName") None (Some "outlined").

Lemma mapM_chips (groups : list JsValue) :
  mapM (λ group,
          groupId ← getProp group "groupId";
          groupName ← getProp group "groupName";
          Normal (Chip (Some groupId) groupName None (Some "outlined"))) groups
  = if forallb (λ g, negb (nullish g)) groups
    then Normal (chipOf <$> groups) else Throw TypeError.
Proof.
  induction groups as [|g groups IH]; [done|].
  cbn [mapM forallb fmap list_fmap]. rewrite IH. clear IH.
  destruct (nullish g) eqn:Eg.
  - by destruct g.
  - rewrite !getProp_optGet by done. cbn [mbind Completion_bind negb andb].
    by destruct (forallb _ groups).
Qed.

(** X15. What a chiplist cell does with any value: "No groups" for a falsy
    value and for a value whose [length] is 0, one tag per element for an
    array without null or undefined elements, and a [TypeError] for
    everything else (a number, [true], a non-empty string, an object, an
    array with a hole). *)
Theorem chiplist_cell_on_any_value (columnMeta : ColumnMetadata) (value : JsValue) :
  type columnMeta = "chiplist" →
  renderCellByType formatDate value columnMeta
  = if negb (truthy value) || strictEqZero (optGet value "length")
    then Normal (Span "#999" "No groups")
    else match value with
         | JArr groups =>
             if forallb (λ g, negb (nullish g)) groups
             then Normal (Box ((λ g, Chip (Some (optGet g "groupId"))
                                       (optGet g "groupName") None (Some "outlined"))
                               <$> groups))
             else Throw TypeError
         | _ => Throw TypeError
         end.
Proof.
  intros Hty. unfold renderCellByType. rewrite Hty. simpl.
  destruct (truthy value) eqn:Et; [|done]. cbn [negb orb].
  rewrite getProp_optGet by (by destruct value). cbn [mbind Completion_bind].
  destruct (strictEqZero _); [done|].
  unfold arrayMap. destruct value; try done.
  rewrite mapM_chips. by destruct (forallb _ elems).
Qed.

End GridExtras.

Lemma chiplist_cell_on_any_value_witness :
  DynamicGrid.renderCellByType (λ _ _, Throw TypeError) (JStr "Engineering")
    Samples.groupsColumn
  = Throw TypeError.
Proof.
  apply (chiplist_cell_on_any_value (λ _ _, Throw TypeError) Samples.groupsColumn
           (JStr "Engineering")).
  reflexivity.
Defined.


Section RowExtras.
Import UsersPage UserActions.

(** X16. For the data of a list response, or no data at all, the rows of
    the page are built and their actions rendered without an exception:
    there is one row per user, in order, none when there are no users. *)
Theorem rows_of_a_response_render (data : JsValue) (flag : bool) :
  responseShaped data = true →
  ∃ rs, usersWithActions data flag = Normal rs
    ∧ (user <$> (actions <$> rs))
      = match usersOf data with JArr users => users | _ => [] end
    ∧ Forall (λ r, ∃ rendered, render (actions r) = Normal rendered) rs.
Proof.
  unfold responseShaped, usersWithActions. fold (usersOf data). intros H.
  destruct (truthy (usersOf data)) eqn:Et; simpl in H.
  - destruct (usersOf data) as [| | | | |users|]; try done.
    unfold arrayMap. rewrite mapM_pure. eexists. split; [done|]. split.
    + rewrite <-!list_fmap_compose. by rewrite list_fmap_id.
    + apply Forall_fmap, Forall_forall. intros u Hu%list_elem_of_In.
      rewrite forallb_forall in H. apply H, negb_true_iff in Hu.
      unfold render; simpl. destruct flag; [by eexists|].
      rewrite !getProp_optGet by done. simpl. by eexists.
  - exists []. repeat split; [|by constructor].
    destruct (usersOf data); done.
Qed.

Lemma rows_of_a_response_render_witness :
  ∃ rs, usersWithActions (Samples.response [Samples.ada; Samples.bob]) false = Normal rs
    ∧ (user <$> (actions <$> rs)) = [Samples.ada; Samples.bob]
    ∧ Forall (λ r, ∃ rendered, render (actions r) = Normal rendered) rs.
Proof.
  apply (rows_of_a_response_render (Samples.response [Samples.ada; Samples.bob]) false).
  reflexivity.
Defined.

End RowExtras.

Section SkeletonExtras.
Import DynamicGrid DynamicGridComponent TableLoadingSkeleton.

(** X17. The grid shows the skeleton exactly when it is loading with no
    rows.  The skeleton is shaped like the table to come: as many rows as
    the page size (none when it is [NaN] or negative), and in the head and
    in every row one placeholder per column, the one of that column's kind,
    in the order of the columns; a page size from 2^32 on, infinite
    included, makes it throw.
    Otherwise the grid shows the rows on one column definition per column,
    in order. *)
Theorem loading_grid_is_shaped_like_the_table
    (data : list JsValue) (columns : list ColumnMetadata)
    (isLoading : bool) (pageSize : number) :
  match DynamicGrid data columns isLoading pageSize with
  | Some (Loading sk) =>
      isLoading = true ∧ data = []
      ∧ length (head sk) = length columns
      ∧ length (body sk)
        = match pageSize with
          | NaN | Infinity _ => 0%nat
          | Int z => Z.to_nat z
          end
      ∧ Forall (λ row, ∀ i, row !! i = bodyCell <$> columns !! i) (body sk)
  | Some (Table cols rows) =>
      (isLoading = false ∨ data ≠ [])
      ∧ rows = data
      ∧ ∀ i, accessorKey <$> cols !! i = key <$> columns !! i
  | None =>
      isLoading = true ∧ data = []
      ∧ (pageSize = Infinity false ∨ ∃ z, pageSize = Int z ∧ 2 ^ 32 ≤ z)
  end.
Proof.
  unfold DynamicGrid.
  destruct isLoading; simpl; [case_bool_decide as E; simpl|].
  - apply length_zero_iff_nil in E. unfold render, arrayLength. simpl.
    destruct pageSize as [|z|[]]; simpl.
    + split; [done|]. split; [done|]. split; [by rewrite length_fmap|].
      split; [done|constructor].
    + destruct (z <? 2 ^ 32) eqn:Ez; simpl.
      * split; [done|]. split; [done|]. split; [by rewrite length_fmap|].
        split; [by rewrite length_replicate|].
        apply Forall_replicate. intros i. by rewrite list_lookup_fmap.
      * split; [done|]. split; [done|]. right. exists z. split; [done|].
        by apply Z.ltb_ge in Ez.
    + split; [done|]. split; [done|]. split; [by rewrite length_fmap|].
      split; [done|constructor].
    + split; [done|]. split; [done|]. by left.
  - repeat split; [right; by intros ->|].
    intros i. unfold tableColumns. rewrite list_lookup_fmap.
    by destruct (columns !! i).
  - repeat split; [by left|].
    intros i. unfold tableColumns. rewrite list_lookup_fmap.
    by destruct (columns !! i).
Qed.

End SkeletonExtras.

(** ** The error boundary *)

Section BoundaryExtras.
Import ErrorBoundary.
Context {Err Info Node : Type}.
Implicit Types (events : list (Event Err Info)).

(** X18. The boundary keeps no history: after any sequence of events it is
    in its initial state and renders its children when nothing has happened
    or the last event is "Try Again", and otherwise it has the error and
    the stack of the last throw and renders the fallback, the default one
    carrying that error. *)
Theorem boundary_state_is_the_last_event
    events (fallback : option Node) (children : Node) :
  match last events with
  | Some (ChildThrows e info) =>
      run events = {| hasError := true; error := Some e; errorInfo := Some info |}
      ∧ render fallback children (run events)
        = match fallback with
          | Some f => CustomFallback f
          | None => DefaultFallback (Some e)
          end
  | Some TryAgain | None =>
      run events = initialState
      ∧ render fallback children (run events) = Children children
  end.
Proof.
  destruct events as [|ev events _] using rev_ind; [done|].
  rewrite last_snoc. unfold run. rewrite foldl_app. simpl.
  by destruct ev.
Qed.

End BoundaryExtras.

(** ** Reloading the page *)

Section ReloadExtras.
Import UseUsers UsersPage.
Implicit Types (st : State).

Lemma decode_encode_read st (storedVisibility : gmap string bool) :
  encodable st → safePage (pageIndex (pagination st)) →
  usersParams (decode (encode st) storedVisibility)
  = {| page := page (usersParams st);
       QueryClient.pageSize := Int 10;
       query := query (usersParams st);
       status := status (usersParams st) |}.
Proof.
  intros [Hstatus _] Hsafe. unfold usersParams, decode, getOr, useDebounce_initial.
  cbn [pagination pageIndex pageSize debouncedSearchQuery statusFilter page query status].
  rewrite encode_page, encode_status, encode_search.
  rewrite (bool_decide_eq_false_2 (numToString _ = "")) by apply numToString_nonempty.
  rewrite decode_page_of_safe by done. f_equal.
  - case_bool_decide; [done|]. by rewrite bool_decide_eq_false_2.
  - case_bool_decide; [done|]. by rewrite bool_decide_eq_false_2.
Qed.

(** X19. The page size is not part of the URL: a view the page can be in,
    on a page index that is [NaN] or an integer from -2^53 to 2^53 - 1,
    mounted again from the URL it wrote, reads the same page, search text
    and status with a page size of 10, so it reads the same cache entry
    exactly when its page size was 10; the column visibility it mounts
    with is the stored one. *)
Theorem reload_reads_the_same_entry_iff_page_size_is_10
    st (storedVisibility : gmap string bool) :
  produced st → safePage (pageIndex (pagination st)) →
  let st' := decode (encode st) storedVisibility in
  page (usersParams st') = page (usersParams st)
  ∧ query (usersParams st') = query (usersParams st)
  ∧ status (usersParams st') = status (usersParams st)
  ∧ QueryClient.pageSize (usersParams st') = Int 10
  ∧ (usersQueryKey st' = usersQueryKey st ↔ pageSize (pagination st) = Int 10)
  ∧ columnVisibility st' = storedVisibility.
Proof.
  intros Hp%produced_encodable Hsafe st'.
  pose proof (decode_encode_read st storedVisibility Hp Hsafe) as Hr. fold st' in Hr.
  assert (Hk : usersQueryKey st' = usersQueryKey st ↔ pageSize (pagination st) = Int 10).
  { unfold usersQueryKey, userQueryKeys.list. rewrite Hr.
    unfold usersParams, hashKey. cbn [fmap list_fmap hashPart]. unfold hashParams.
    cbn [page query status QueryClient.pageSize hashNumber]. split.
    - intros [= H]. by destruct (pageSize (pagination st)).
    - by intros ->. }
  rewrite Hr. cbn [page query status QueryClient.pageSize].
  by repeat split; try apply Hk.
Qed.

Lemma reload_reads_the_same_entry_iff_page_size_is_10_witness :
  usersQueryKey (decode (encode Samples.viewFiltered) ∅)
  = usersQueryKey Samples.viewFiltered.
Proof.
  apply (reload_reads_the_same_entry_iff_page_size_is_10 Samples.viewFiltered ∅).
  - unfold Samples.viewFiltered, Samples.view, run. cbn [foldl].
    repeat (apply produced_step; [|simpl; try done]).
    + apply produced_mount.
    + apply list_elem_of_In. simpl. tauto.
    + repeat constructor. done.
  - split; by vm_compute.
  - reflexivity.
Defined.

End ReloadExtras.
